(** * slurm_plugin/capacity_block_manager.py

  A shallow embedding of the Capacity Block manager of the Slurm plugin:
  the [CapacityBlock] record, the projection of the fleet configuration to
  capacity blocks, the refresh from EC2, the association of nodes, the
  reconciliation of Slurm reservations and the sweep of leftovers.

  Python objects are mutated in place and exceptions leave the mutations
  done so far; the embedding therefore runs in a state monad whose result
  is either a value or a raised exception, and whose final state is kept in
  both cases. *)

From Stdlib Require Import String Ascii List ZArith Bool.
Import ListNotations.
Local Open Scope string_scope.
Local Open Scope Z_scope.

(** ** Python values used by the module *)

Module Py.

(** [s.startswith(p)] *)
Definition startswith (s p : string) : bool := String.prefix p s.

(** [s[n:]] *)
Fixpoint slice_from (n : nat) (s : string) : string :=
  match n, s with
  | O, _ => s
  | S _, EmptyString => EmptyString
  | S k, String _ t => slice_from k t
  end.

(** [sep.join(l)] *)
Fixpoint join (sep : string) (l : list string) : string :=
  match l with
  | [] => ""
  | [x] => x
  | x :: rest => x ++ sep ++ join sep rest
  end.

(** A [dict] with [str] keys keeps its keys in insertion order; assigning to
    a key that is present replaces the value and keeps the position. *)
Definition dict (V : Type) : Type := list (string * V).

Fixpoint get {V} (d : dict V) (k : string) : option V :=
  match d with
  | [] => None
  | (k', v) :: rest => if String.eqb k k' then Some v else get rest k
  end.

Definition contains {V} (d : dict V) (k : string) : bool :=
  match get d k with Some _ => true | None => false end.

Fixpoint set {V} (d : dict V) (k : string) (v : V) : dict V :=
  match d with
  | [] => [(k, v)]
  | (k', v') :: rest =>
      if String.eqb k k' then (k', v) :: rest else (k', v') :: set rest k v
  end.

Definition keys {V} (d : dict V) : list string := map fst d.
Definition values {V} (d : dict V) : list V := map snd d.
Definition items {V} (d : dict V) : list (string * V) := d.

(** Exceptions raised by the module or by its collaborators. *)
Inductive exn : Type :=
| KeyError (key : string)
| AttributeError (attr : string)
| ClientError (message : string).

Inductive outcome (A : Type) : Type :=
| Return (a : A)
| Raise (e : exn).
Arguments Return {A} a.
Arguments Raise {A} e.

End Py.
Import Py.

(** ** The state-and-exception monad *)

Definition M (S A : Type) : Type := S -> outcome A * S.

Definition ret {S A} (a : A) : M S A := fun s => (Return a, s).
Definition raise {S A} (e : exn) : M S A := fun s => (Raise e, s).
Definition bind {S A B} (c : M S A) (k : A -> M S B) : M S B :=
  fun s =>
    match c s with
    | (Return a, s') => k a s'
    | (Raise e, s') => (Raise e, s')
    end.
Definition gets {S A} (f : S -> A) : M S A := fun s => (Return (f s), s).
Definition modify {S} (f : S -> S) : M S unit := fun s => (Return tt, f s).
Definition of_outcome {S A} (o : outcome A) : M S A := fun s => (o, s).

Notation "x <- c ;; k" := (bind c (fun x => k))
  (at level 61, c at next level, right associativity).
Notation "c ;;; k" := (bind c (fun _ => k))
  (at level 61, right associativity).

(** ** Constants and enumerations *)

(** Time in minutes to wait to retrieve Capacity Block Reservation information
  from EC2. *)
Definition CAPACITY_BLOCK_RESERVATION_UPDATE_PERIOD : Z := 10.
Definition SLURM_RESERVATION_NAME_PREFIX : string := "pcluster-".

Module CapacityType.
Inductive t : Type := CAPACITY_BLOCK | ONDEMAND | SPOT.
Definition value (c : t) : string :=
  match c with
  | CAPACITY_BLOCK => "capacity-block"
  | ONDEMAND => "on-demand"
  | SPOT => "spot"
  end.
End CapacityType.

(** ** Collaborators' data *)

(** Modelled from the spec: [aws.ec2.CapacityBlockReservationInfo], an entry
    of the answer of the cloud reservation query, with the two accessors this
    module calls: the reservation id and the lifecycle state. *)
Module CapacityBlockReservationInfo.
Record t : Type := Build { capacity_reservation_id : string; state : string }.
End CapacityBlockReservationInfo.

(** Modelled from the spec: [slurm_plugin.slurm_resources.SlurmNode], a node
    of the scheduler's inventory, exposing its name, queue and compute
    resource. *)
Module SlurmNode.
Record t : Type :=
  Build { name : string; queue_name : string; compute_resource_name : string }.
End SlurmNode.

(** Modelled from the spec: an entry of the listing of the scheduler's
    reservations, with its name and its nodes. *)
Module SlurmReservation.
Record t : Type := Build { name : string; nodes : string }.
End SlurmReservation.

(** Timestamps are seconds since the epoch. *)
Definition datetime : Type := Z.

(** ** class CapacityBlock *)

Module CapacityBlock.

Record t : Type := Build {
  capacity_block_id : string;
  queue_name : string;
  compute_resource_name : string;
  _capacity_block_reservation_info : option CapacityBlockReservationInfo.t;
  _nodenames : list string
}.

Definition __init__ (capacity_block_id queue_name compute_resource_name : string) : t :=
  Build capacity_block_id queue_name compute_resource_name None [].

Definition update_ec2_info (self : t) (info : CapacityBlockReservationInfo.t) : t :=
  Build (capacity_block_id self) (queue_name self) (compute_resource_name self)
        (Some info) (_nodenames self).

Definition slurm_reservation_name (self : t) : string :=
  SLURM_RESERVATION_NAME_PREFIX ++ capacity_block_id self.

Definition add_nodename (self : t) (nodename : string) : t :=
  Build (capacity_block_id self) (queue_name self) (compute_resource_name self)
        (_capacity_block_reservation_info self) (_nodenames self ++ [nodename]).

Definition nodenames (self : t) : list string := _nodenames self.

(** [self._capacity_block_reservation_info.state()]: an attribute lookup on
    [None] when no EC2 info was stored. *)
Definition state (self : t) : outcome string :=
  match _capacity_block_reservation_info self with
  | Some info => Return (CapacityBlockReservationInfo.state info)
  | None => Raise (AttributeError "state")
  end.

Definition is_active (self : t) : outcome bool :=
  match state self with
  | Return s => Return (String.eqb s "active")
  | Raise e => Raise e
  end.

Definition does_node_belong_to (self : t) (node : SlurmNode.t) : bool :=
  String.eqb (SlurmNode.queue_name node) (queue_name self)
  && String.eqb (SlurmNode.compute_resource_name node) (compute_resource_name self).

Definition slurm_reservation_name_to_id (slurm_reservation_name : string) : string :=
  slice_from (String.length SLURM_RESERVATION_NAME_PREFIX) slurm_reservation_name.

Definition is_capacity_block_slurm_reservation (slurm_reservation_name : string) : bool :=
  startswith slurm_reservation_name SLURM_RESERVATION_NAME_PREFIX.


End CapacityBlock.

(** ** The world outside the manager *)

(** Calls issued to the collaborators, in the order they were made. *)
Inductive call : Type :=
| DescribeCapacityReservations (capacity_block_ids : list string)
| DoesSlurmReservationExist (name : string)
| CreateSlurmReservation (name : string) (start_time : datetime) (nodes : string)
| UpdateSlurmReservation (name : string) (nodes : string)
| DeleteSlurmReservation (name : string)
| GetSlurmReservationsInfo.

(** The calls that change the scheduler: create, update and delete. *)
Definition is_mutation (c : call) : bool :=
  match c with
  | CreateSlurmReservation _ _ _ | UpdateSlurmReservation _ _
  | DeleteSlurmReservation _ => true
  | _ => false
  end.

(** The calls to EC2. *)
Definition is_describe (c : call) : bool :=
  match c with DescribeCapacityReservations _ => true | _ => false end.

(** The scheduler's reservations (name and node list) and the trace of calls. *)
Record World : Type := MkWorld {
  reservations : dict string;
  calls : list call
}.

(** What one invocation reads from outside: the clock ([datetime.now], taken
    as not advancing within an invocation) and what
    [self.ec2_client().describe_capacity_reservations(capacity_block_ids)]
    evaluates to for a list of ids, a list of reservation infos or an
    exception. *)
Record Env : Type := MkEnv {
  now : datetime;
  describe_capacity_reservations :
    list string -> outcome (list CapacityBlockReservationInfo.t)
}.

(** Appends a call to the trace. *)
Definition record_call (c : call) : M World unit :=
  modify (fun w => MkWorld (reservations w) (calls w ++ [c])).

(** Changes the scheduler's reservations. *)
Definition set_reservations (f : dict string -> dict string) : M World unit :=
  modify (fun w => MkWorld (f (reservations w)) (calls w)).

(** The reservations without the one called [name]. *)
Definition remove_reservation (name : string) (d : dict string) : dict string :=
  filter (fun kv => negb (String.eqb name (fst kv))) d.

(** Modelled from the spec: the scheduler reservation commands of
    [common.schedulers.slurm_reservation_commands], over a store of named
    reservations; each command is recorded in the trace, is taken as
    succeeding and has the effect its name says. [exists(name)]: *)
Definition does_slurm_reservation_exist (name : string) : M World bool :=
  record_call (DoesSlurmReservationExist name) ;;;
  gets (fun w => contains (reservations w) name).

(** Modelled from the spec: [create(name, startTime, nodeNames)]; the
    reservation [name] holds [nodes] afterwards. *)
Definition create_slurm_reservation (name : string) (start_time : datetime)
    (nodes : string) : M World unit :=
  record_call (CreateSlurmReservation name start_time nodes) ;;;
  set_reservations (fun d => set d name nodes).

(** Modelled from the spec: [update(name, nodeNames)]; the node list of the
    reservation is overwritten. *)
Definition update_slurm_reservation (name nodes : string) : M World unit :=
  record_call (UpdateSlurmReservation name nodes) ;;;
  set_reservations (fun d => set d name nodes).

(** Modelled from the spec: [delete(name)]; the reservation is gone
    afterwards. *)
Definition delete_slurm_reservation (name : string) : M World unit :=
  record_call (DeleteSlurmReservation name) ;;;
  set_reservations (remove_reservation name).

(** Modelled from the spec: [listAll()], the reservations of the store in
    their order. *)
Definition get_slurm_reservations_info : M World (list SlurmReservation.t) :=
  record_call GetSlurmReservationsInfo ;;;
  gets (fun w => map (fun kv => SlurmReservation.Build (fst kv) (snd kv))
                     (reservations w)).

(** Modelled from the spec: [common.time_utils.seconds_to_minutes], the
    elapsed time in whole minutes, compared with the 10 minutes threshold. *)
Definition seconds_to_minutes (seconds : Z) : Z := seconds / 60.

(** ** The fleet configuration *)

(** A compute resource's configuration, restricted to its string-valued
    fields (the only ones this module reads). *)
Definition compute_resource_config : Type := dict string.
Definition queue_config : Type := dict compute_resource_config.
Definition fleet_config : Type := dict queue_config.

(** What [compute_resource_config.get("CapacityType", CapacityType.ONDEMAND)]
    evaluates to: the [str] of the configuration, or the enum member given as
    default. *)
Inductive capacity_type_field : Type :=
| FieldStr (s : string)
| FieldEnum (c : CapacityType.t).

(** [field == s] for a [str] [s]: a member of a plain [Enum] is not equal to
    a [str]. *)
Definition field_eq_str (f : capacity_type_field) (s : string) : bool :=
  match f with
  | FieldStr s' => String.eqb s' s
  | FieldEnum _ => false
  end.

(** ** class CapacityBlockManager *)

Module CapacityBlockManager.

Record t : Type := Build {
  _fleet_config : fleet_config;
  _capacity_blocks : dict CapacityBlock.t;
  _capacity_blocks_update_time : option datetime;
  _reserved_nodenames : list string
}.

Definition __init__ (fleet_config : fleet_config) : t :=
  Build fleet_config [] None [].

End CapacityBlockManager.
Import CapacityBlockManager.

(** The manager together with the world it acts on. *)
Record System : Type := MkSystem {
  self : CapacityBlockManager.t;
  world : World
}.

Definition in_world {A} (c : M World A) : M System A :=
  fun s => let (o, w) := c (world s) in (o, MkSystem (self s) w).

Definition set_capacity_blocks (d : dict CapacityBlock.t) : M System unit :=
  modify (fun s =>
    MkSystem (Build (_fleet_config (self s)) d
                    (_capacity_blocks_update_time (self s))
                    (_reserved_nodenames (self s)))
             (world s)).

Definition set_capacity_blocks_update_time (time : datetime) : M System unit :=
  modify (fun s =>
    MkSystem (Build (_fleet_config (self s)) (_capacity_blocks (self s))
                    (Some time) (_reserved_nodenames (self s)))
             (world s)).

Definition set_reserved_nodenames (l : list string) : M System unit :=
  modify (fun s =>
    MkSystem (Build (_fleet_config (self s)) (_capacity_blocks (self s))
                    (_capacity_blocks_update_time (self s)) l)
             (world s)).

(** *** Projection of the fleet configuration *)

Definition _is_compute_resource_associated_to_capacity_block
    (compute_resource_config : compute_resource_config) : bool :=
  let capacity_type :=
    match get compute_resource_config "CapacityType" with
    | Some s => FieldStr s
    | None => FieldEnum CapacityType.ONDEMAND
    end in
  field_eq_str capacity_type (CapacityType.value CapacityType.CAPACITY_BLOCK).

Definition _capacity_reservation_id_from_compute_resource_config
    (compute_resource_config : compute_resource_config) : outcome string :=
  match get compute_resource_config "CapacityReservationId" with
  | Some capacity_reservation_id => Return capacity_reservation_id
  | None => Raise (KeyError "CapacityReservationId")
  end.

(** The inner loop of [_capacity_blocks_from_config], over the compute
    resources of one queue. *)
Fixpoint capacity_blocks_from_queue (queue_name : string)
    (compute_resources : list (string * compute_resource_config))
    (capacity_blocks : dict CapacityBlock.t) : outcome (dict CapacityBlock.t) :=
  match compute_resources with
  | [] => Return capacity_blocks
  | (compute_resource_name, compute_resource_config) :: rest =>
      if _is_compute_resource_associated_to_capacity_block compute_resource_config
      then
        match _capacity_reservation_id_from_compute_resource_config
                compute_resource_config with
        | Return capacity_block_id =>
            let capacity_block :=
              CapacityBlock.__init__ capacity_block_id queue_name
                                     compute_resource_name in
            capacity_blocks_from_queue queue_name rest
              (set capacity_blocks capacity_block_id capacity_block)
        | Raise e => Raise e
        end
      else capacity_blocks_from_queue queue_name rest capacity_blocks
  end.

(** The outer loop, over the queues. *)
Fixpoint capacity_blocks_from_queues (queues : list (string * queue_config))
    (capacity_blocks : dict CapacityBlock.t) : outcome (dict CapacityBlock.t) :=
  match queues with
  | [] => Return capacity_blocks
  | (queue_name, queue_config) :: rest =>
      match capacity_blocks_from_queue queue_name (items queue_config)
                                       capacity_blocks with
      | Return capacity_blocks' => capacity_blocks_from_queues rest capacity_blocks'
      | Raise e => Raise e
      end
  end.

Definition _capacity_blocks_from_config (fleet_config : fleet_config)
    : outcome (dict CapacityBlock.t) :=
  capacity_blocks_from_queues (items fleet_config) [].

(** *** Refresh from EC2 *)

(** The loop storing each returned info in its capacity block:
    [self._capacity_blocks[capacity_block_id].update_ec2_info(info)]. *)
Fixpoint store_ec2_info (infos : list CapacityBlockReservationInfo.t)
    : M System unit :=
  match infos with
  | [] => ret tt
  | capacity_block_reservation_info :: rest =>
      let capacity_block_id :=
        CapacityBlockReservationInfo.capacity_reservation_id
          capacity_block_reservation_info in
      capacity_blocks <- gets (fun s => _capacity_blocks (self s)) ;;
      match get capacity_blocks capacity_block_id with
      | Some capacity_block =>
          set_capacity_blocks
            (set capacity_blocks capacity_block_id
                 (CapacityBlock.update_ec2_info capacity_block
                                                capacity_block_reservation_info)) ;;;
          store_ec2_info rest
      | None => raise (KeyError capacity_block_id)
      end
  end.

Definition _update_capacity_blocks_info_from_ec2 (E : Env) : M System unit :=
  fleet_config <- gets (fun s => _fleet_config (self s)) ;;
  capacity_blocks <- of_outcome (_capacity_blocks_from_config fleet_config) ;;
  set_capacity_blocks capacity_blocks ;;;
  match capacity_blocks with
  | [] => ret tt
  | _ :: _ =>
      let capacity_block_ids := keys capacity_blocks in
      in_world (record_call (DescribeCapacityReservations capacity_block_ids)) ;;;
      capacity_block_reservations_info <-
        of_outcome (describe_capacity_reservations E capacity_block_ids) ;;
      store_ec2_info capacity_block_reservations_info
  end ;;;
  set_capacity_blocks_update_time (now E).

(** *** Association of nodes *)

(** The inner loop of [_associate_nodenames_to_capacity_blocks]: the node's
    name is added to the first capacity block it belongs to. *)
Fixpoint associate_node (node : SlurmNode.t) (capacity_blocks : dict CapacityBlock.t)
    : dict CapacityBlock.t :=
  match capacity_blocks with
  | [] => []
  | (k, capacity_block) :: rest =>
      if CapacityBlock.does_node_belong_to capacity_block node
      then (k, CapacityBlock.add_nodename capacity_block (SlurmNode.name node)) :: rest
      else (k, capacity_block) :: associate_node node rest
  end.

Definition _associate_nodenames_to_capacity_blocks (nodes : list SlurmNode.t)
    : M System unit :=
  capacity_blocks <- gets (fun s => _capacity_blocks (self s)) ;;
  set_capacity_blocks
    (fold_left (fun d node => associate_node node d) nodes capacity_blocks).

(** *** Reconciliation of one capacity block *)

Definition _update_slurm_reservation (E : Env) (capacity_block : CapacityBlock.t)
    : M World (list string) :=
  let slurm_reservation_name := CapacityBlock.slurm_reservation_name capacity_block in
  let capacity_block_nodes := CapacityBlock.nodenames capacity_block in
  let capacity_block_nodenames := join "," capacity_block_nodes in
  reservation_exists <- does_slurm_reservation_exist slurm_reservation_name ;;
  is_active <- of_outcome (CapacityBlock.is_active capacity_block) ;;
  if (is_active : bool) then
    if (reservation_exists : bool) then
      delete_slurm_reservation slurm_reservation_name ;;; ret []
    else ret []
  else
    if reservation_exists then
      update_slurm_reservation slurm_reservation_name capacity_block_nodenames ;;;
      ret capacity_block_nodes
    else
      create_slurm_reservation slurm_reservation_name (now E)
                               capacity_block_nodenames ;;;
      ret capacity_block_nodes.

(** The loop of [get_reserved_nodenames] over
    [self._capacity_blocks.values()], extending [reserved_nodenames]. *)
Fixpoint update_slurm_reservations (E : Env) (capacity_blocks : list CapacityBlock.t)
    (reserved_nodenames : list string) : M World (list string) :=
  match capacity_blocks with
  | [] => ret reserved_nodenames
  | capacity_block :: rest =>
      nodes_in_slurm_reservation <- _update_slurm_reservation E capacity_block ;;
      update_slurm_reservations E rest
        (reserved_nodenames ++ nodes_in_slurm_reservation)
  end.

(** *** Sweep of leftover reservations *)

(** The test under which the sweep deletes a reservation: its name is one of
    a capacity block and the id parsed from it is not in
    [self._capacity_blocks.keys()]. *)
Definition is_leftover (capacity_block_ids : list string) (name : string) : bool :=
  CapacityBlock.is_capacity_block_slurm_reservation name
  && negb (existsb (String.eqb (CapacityBlock.slurm_reservation_name_to_id name))
                   capacity_block_ids).

Fixpoint cleanup_reservations (capacity_block_ids : list string)
    (slurm_reservations : list SlurmReservation.t) : M World unit :=
  match slurm_reservations with
  | [] => ret tt
  | slurm_reservation :: rest =>
      let name := SlurmReservation.name slurm_reservation in
      (if CapacityBlock.is_capacity_block_slurm_reservation name then
         let capacity_block_id := CapacityBlock.slurm_reservation_name_to_id name in
         if negb (existsb (String.eqb capacity_block_id) capacity_block_ids)
         then delete_slurm_reservation name
         else ret tt
       else ret tt) ;;;
      cleanup_reservations capacity_block_ids rest
  end.

Definition _cleanup_leftover_slurm_reservations : M System unit :=
  slurm_reservations <- in_world get_slurm_reservations_info ;;
  capacity_block_ids <- gets (fun s => keys (_capacity_blocks (self s))) ;;
  in_world (cleanup_reservations capacity_block_ids slurm_reservations).

(** *** The entry point *)

(** [self._capacity_blocks_update_time and seconds_to_minutes(now - time) >
    CAPACITY_BLOCK_RESERVATION_UPDATE_PERIOD], as a truth value: [None] is
    false and the [and] stops there. *)
Definition is_time_to_update (E : Env) (update_time : option datetime) : bool :=
  match update_time with
  | None => false
  | Some time =>
      seconds_to_minutes (now E - time) >? CAPACITY_BLOCK_RESERVATION_UPDATE_PERIOD
  end.

Definition get_reserved_nodenames (E : Env) (nodes : list SlurmNode.t)
    : M System (list string) :=
  update_time <- gets (fun s => _capacity_blocks_update_time (self s)) ;;
  (if is_time_to_update E update_time then
     _update_capacity_blocks_info_from_ec2 E ;;;
     _associate_nodenames_to_capacity_blocks nodes ;;;
     capacity_blocks <- gets (fun s => values (_capacity_blocks (self s))) ;;
     reserved_nodenames <- in_world (update_slurm_reservations E capacity_blocks []) ;;
     set_reserved_nodenames reserved_nodenames ;;;
     _cleanup_leftover_slurm_reservations
   else ret tt) ;;;
  gets (fun s => _reserved_nodenames (self s)).

(** * Vocabulary of the properties *)

(** The [KeyError] of [compute_resource_config["CapacityReservationId"]]. *)
Definition missing_id : exn := KeyError "CapacityReservationId".

(** A capacity block whose nodes are to be reserved: one that is not active. *)
Definition is_withheld (cb : CapacityBlock.t) : bool :=
  match CapacityBlock.is_active cb with
  | Return true => false
  | _ => true
  end.

(** [update_ec2_info] has stored the answer of EC2 in the capacity block. *)
Definition has_ec2_info (cb : CapacityBlock.t) : Prop :=
  CapacityBlock._capacity_block_reservation_info cb <> None.

(** The comma-separated node names given to the scheduler. *)
Definition nodes_field (cb : CapacityBlock.t) : string :=
  join "," (CapacityBlock.nodenames cb).

(** The effect of one reconciliation on the reservations. *)
Definition reconciled (cb : CapacityBlock.t) (d : dict string) : dict string :=
  if is_withheld cb
  then set d (CapacityBlock.slurm_reservation_name cb) (nodes_field cb)
  else remove_reservation (CapacityBlock.slurm_reservation_name cb) d.

(** The calls issued by one reconciliation after the existence query. *)
Definition reconciling_calls (E : Env) (cb : CapacityBlock.t) (d : dict string)
    : list call :=
  let name := CapacityBlock.slurm_reservation_name cb in
  if is_withheld cb then
    [if contains d name then UpdateSlurmReservation name (nodes_field cb)
     else CreateSlurmReservation name (now E) (nodes_field cb)]
  else if contains d name then [DeleteSlurmReservation name] else [].

(** The calls issued by the reconciliation loop, from the reservations [d]. *)
Fixpoint loop_calls (E : Env) (cbs : list CapacityBlock.t) (d : dict string)
    : list call :=
  match cbs with
  | [] => []
  | cb :: rest =>
      DoesSlurmReservationExist (CapacityBlock.slurm_reservation_name cb)
      :: reconciling_calls E cb d ++ loop_calls E rest (reconciled cb d)
  end.

(** The node names one reconciliation returns. *)
Definition withheld_nodes (cb : CapacityBlock.t) : list string :=
  if is_withheld cb then CapacityBlock.nodenames cb else [].

(** The reservations agree with a capacity block: its reservation holds its
    node list when the block is withheld, and is absent when it is active. *)
Definition settled (d : dict string) (cb : CapacityBlock.t) : Prop :=
  get d (CapacityBlock.slurm_reservation_name cb)
  = if is_withheld cb then Some (nodes_field cb) else None.

(** No compute resource of the fleet configuration is associated to a
    capacity block. *)
Definition no_capacity_block (fc : fleet_config) : Prop :=
  forall q qc cr cfg,
    In (q, qc) (items fc) -> In (cr, cfg) (items qc) ->
    _is_compute_resource_associated_to_capacity_block cfg = false.

(** The queue and compute resource are configured as a capacity block. *)
Definition capacity_block_backed (fc : fleet_config) (q cr : string) : Prop :=
  exists qc cfg,
    In (q, qc) (items fc) /\ In (cr, cfg) (items qc)
    /\ _is_compute_resource_associated_to_capacity_block cfg = true.

(** A capacity block made from the configuration, whose node names are names
    of given nodes that belong to it. *)
Definition sound_block (fc : fleet_config) (nodes : list SlurmNode.t)
    (cb : CapacityBlock.t) : Prop :=
  capacity_block_backed fc (CapacityBlock.queue_name cb)
                        (CapacityBlock.compute_resource_name cb)
  /\ forall x, In x (CapacityBlock.nodenames cb) ->
       exists node, In node nodes /\ SlurmNode.name node = x
                    /\ CapacityBlock.does_node_belong_to cb node = true.

(** Every capacity block of the [dict] is sound. *)
Definition sound (fc : fleet_config) (nodes : list SlurmNode.t)
    (d : dict CapacityBlock.t) : Prop :=
  Forall (fun kv => sound_block fc nodes (snd kv)) d.

(** A Python [dict] has each key once. *)
Definition unique_keys (fc : fleet_config) : Prop :=
  NoDup (keys fc) /\ forall q qc, In (q, qc) (items fc) -> NoDup (keys qc).

(** The fleet configuration declares the capacity block [k] for the compute
    resource [cr] of the queue [q]. *)
Definition declares (fc : fleet_config) (q cr k : string) : Prop :=
  exists qc cfg,
    In (q, qc) (items fc) /\ In (cr, cfg) (items qc)
    /\ _is_compute_resource_associated_to_capacity_block cfg = true
    /\ get cfg "CapacityReservationId" = Some k.

(** Capacity blocks as the projection makes them: each key once, and under
    each key the capacity block just built for a compute resource that
    declares it. *)
Definition projected (fc : fleet_config) (d : dict CapacityBlock.t) : Prop :=
  NoDup (keys d)
  /\ forall k cb, In (k, cb) d ->
       exists q cr, cb = CapacityBlock.__init__ k q cr /\ declares fc q cr k.

(** Every compute resource that is a capacity block has its reservation id. *)
Definition ids_present (fc : fleet_config) : Prop :=
  forall q qc cr cfg,
    In (q, qc) (items fc) -> In (cr, cfg) (items qc) ->
    _is_compute_resource_associated_to_capacity_block cfg = true ->
    get cfg "CapacityReservationId" <> None.

(** [add_nodename] called for each name of a list, in order. *)
Definition add_nodenames (cb : CapacityBlock.t) (l : list string)
    : CapacityBlock.t :=
  fold_left CapacityBlock.add_nodename l cb.

(** The nodes shared out among the capacity blocks in the order of the dict:
    a capacity block takes the nodes that belong to it, in the order of the
    list, and the capacity blocks after it share the nodes that are left. *)
Fixpoint bound (nodes : list SlurmNode.t) (d : dict CapacityBlock.t)
    : dict CapacityBlock.t :=
  match d with
  | [] => []
  | (k, cb) :: rest =>
      (k, add_nodenames cb
            (map SlurmNode.name
                 (filter (CapacityBlock.does_node_belong_to cb) nodes)))
      :: bound (filter (fun node =>
                          negb (CapacityBlock.does_node_belong_to cb node))
                       nodes)
               rest
  end.

(** The node belongs to one of the capacity blocks. *)
Definition belongs_to_some (cbs : list CapacityBlock.t) (node : SlurmNode.t)
    : bool :=
  existsb (fun cb => CapacityBlock.does_node_belong_to cb node) cbs.

(** The number of node names held by the capacity blocks. *)
Definition nodenames_count (d : dict CapacityBlock.t) : nat :=
  length (flat_map CapacityBlock.nodenames (values d)).

(** The reservation that a call to the scheduler creates, updates or
    deletes. *)
Definition call_target (c : call) : option string :=
  match c with
  | CreateSlurmReservation name _ _ => Some name
  | UpdateSlurmReservation name _ => Some name
  | DeleteSlurmReservation name => Some name
  | _ => None
  end.

(** A reservation of the scheduler whose name does not carry the prefix. *)
Definition unmanaged (kv : string * string) : bool :=
  negb (CapacityBlock.is_capacity_block_slurm_reservation (fst kv)).

(** A call that creates, updates or deletes nothing but a reservation whose
    name carries the prefix. *)
Definition targets_managed (c : call) : Prop :=
  match call_target c with
  | Some name => CapacityBlock.is_capacity_block_slurm_reservation name = true
  | None => True
  end.

(** From [w] to [w'] the reservations without the prefix are the same, in the
    same order, and the calls added target reservations with the prefix. *)
Definition respects_unmanaged (w w' : World) : Prop :=
  filter unmanaged (reservations w') = filter unmanaged (reservations w)
  /\ exists cs, calls w' = (calls w ++ cs)%list /\ Forall targets_managed cs.

(** Computations that respect the reservations without the prefix, whatever
    their outcome. *)
Definition polite {A} (c : M World A) : Prop :=
  forall w o w', c w = (o, w') -> respects_unmanaged w w'.

Definition polite_sys {A} (c : M System A) : Prop :=
  forall s o s', c s = (o, s') -> respects_unmanaged (world s) (world s').

(** One step of the loop that stores the answer of EC2, when it does not
    raise: the info replaces the one of the capacity block under its id. *)
Definition with_info (d : dict CapacityBlock.t)
    (info : CapacityBlockReservationInfo.t) : dict CapacityBlock.t :=
  let id := CapacityBlockReservationInfo.capacity_reservation_id info in
  match get d id with
  | Some cb => set d id (CapacityBlock.update_ec2_info cb info)
  | None => d
  end.

(** The id of the info is a key of the dict. *)
Definition known (d : dict CapacityBlock.t)
    (info : CapacityBlockReservationInfo.t) : Prop :=
  In (CapacityBlockReservationInfo.capacity_reservation_id info) (keys d).

(** The last info of the answer that has the id [k]. *)
Definition latest_info (infos : list CapacityBlockReservationInfo.t) (k : string)
    : option CapacityBlockReservationInfo.t :=
  find (fun info =>
          String.eqb (CapacityBlockReservationInfo.capacity_reservation_id info) k)
       (rev infos).

(** Every capacity block with the last info of the answer for its key, and as
    it was when the answer has none. *)
Definition informed (infos : list CapacityBlockReservationInfo.t)
    (d : dict CapacityBlock.t) : dict CapacityBlock.t :=
  map (fun kv =>
         (fst kv,
          match latest_info infos (fst kv) with
          | Some info => CapacityBlock.update_ec2_info (snd kv) info
          | None => snd kv
          end))
      d.

(** Each key once, and under a key a capacity block with that id. *)
Definition keyed (d : dict CapacityBlock.t) : Prop :=
  NoDup (keys d)
  /\ Forall (fun kv => CapacityBlock.capacity_block_id (snd kv) = fst kv) d.

(** The capacity block has no EC2 info. *)
Definition lacks_ec2_info (cb : CapacityBlock.t) : Prop :=
  CapacityBlock._capacity_block_reservation_info cb = None.

(** * Properties *)

(** ** Strings and dictionaries *)

Lemma slice_from_app (p s : string) :
  slice_from (String.length p) (p ++ s) = s.
Proof. induction p as [|a p IH]; simpl; auto. Qed.

Lemma startswith_app (p s : string) : startswith (p ++ s) p = true.
Proof.
  unfold startswith. induction p as [|a p IH]; simpl.
  - destruct s; reflexivity.
  - destruct (ascii_dec a a); [exact IH | congruence].
Qed.

Lemma startswith_slice (p s : string) :
  startswith s p = true -> p ++ slice_from (String.length p) s = s.
Proof.
  unfold startswith. revert s.
  induction p as [|a p IH]; intros s H; simpl.
  - reflexivity.
  - destruct s as [|b s]; simpl in H; [discriminate|].
    destruct (ascii_dec a b) as [->|]; [|discriminate].
    simpl. f_equal. apply IH. exact H.
Qed.

Lemma append_inj_l (p s1 s2 : string) : p ++ s1 = p ++ s2 -> s1 = s2.
Proof. induction p as [|a p IH]; simpl; intros H; [exact H | injection H; auto]. Qed.

Lemma slurm_reservation_name_injective (cb1 cb2 : CapacityBlock.t) :
  CapacityBlock.slurm_reservation_name cb1 = CapacityBlock.slurm_reservation_name cb2 ->
  CapacityBlock.capacity_block_id cb1 = CapacityBlock.capacity_block_id cb2.
Proof. unfold CapacityBlock.slurm_reservation_name. apply append_inj_l. Qed.

(** ** C9: the reservation name and its inverse *)

(** C9. Deriving the Slurm reservation name of a capacity block (the prefix
    followed by its id) and parsing the id back from that name gives the id
    again; two capacity blocks with the same reservation name have the same
    id; and every name that carries the prefix is the prefix followed by the
    id parsed from it, which is the only id with that name. *)
Theorem slurm_reservation_name_roundtrip :
  (forall cb : CapacityBlock.t,
      CapacityBlock.slurm_reservation_name_to_id
        (CapacityBlock.slurm_reservation_name cb)
      = CapacityBlock.capacity_block_id cb)
  /\ (forall cb1 cb2 : CapacityBlock.t,
         CapacityBlock.slurm_reservation_name cb1
         = CapacityBlock.slurm_reservation_name cb2 ->
         CapacityBlock.capacity_block_id cb1 = CapacityBlock.capacity_block_id cb2)
  /\ (forall name : string,
         CapacityBlock.is_capacity_block_slurm_reservation name = true ->
         SLURM_RESERVATION_NAME_PREFIX
           ++ CapacityBlock.slurm_reservation_name_to_id name = name
         /\ forall id : string,
             SLURM_RESERVATION_NAME_PREFIX ++ id = name ->
             id = CapacityBlock.slurm_reservation_name_to_id name).
Proof.
  unfold CapacityBlock.slurm_reservation_name,
    CapacityBlock.slurm_reservation_name_to_id,
    CapacityBlock.is_capacity_block_slurm_reservation.
  split; [|split].
  - intros cb. apply slice_from_app.
  - intros cb1 cb2 H. eapply append_inj_l; eassumption.
  - intros name H. split.
    + apply startswith_slice; assumption.
    + intros id <-. symmetry. apply slice_from_app.
Qed.

Lemma slurm_reservation_name_roundtrip_witness :
  CapacityBlock.is_capacity_block_slurm_reservation "pcluster-cr-0a1b2c" = true
  /\ SLURM_RESERVATION_NAME_PREFIX
       ++ CapacityBlock.slurm_reservation_name_to_id "pcluster-cr-0a1b2c"
     = "pcluster-cr-0a1b2c"
  /\ CapacityBlock.capacity_block_id (CapacityBlock.__init__ "cr-0a1b2c" "q1" "r1")
     = CapacityBlock.capacity_block_id (CapacityBlock.__init__ "cr-0a1b2c" "q2" "r2").
Proof.
  split; [reflexivity|]. split.
  - apply (proj2 (proj2 slurm_reservation_name_roundtrip)). reflexivity.
  - apply (proj1 (proj2 slurm_reservation_name_roundtrip)). reflexivity.
Defined.

(** ** C1: the first call *)

(** C1 (evaluation of the code). On a manager as [__init__] leaves it, with
    any fleet configuration, nodes, clock, EC2 answer and scheduler content,
    [get_reserved_nodenames] returns the initial empty list, issues no call
    and leaves the manager as it was: [_capacity_blocks_update_time] is still
    [None], so a second call, whenever it comes, does the same. *)
Theorem first_call_does_not_refresh :
  forall (E : Env) (fc : fleet_config) (nodes : list SlurmNode.t) (w : World),
    let s := MkSystem (CapacityBlockManager.__init__ fc) w in
    get_reserved_nodenames E nodes s = (Return [], s)
    /\ forall (E' : Env) (nodes' : list SlurmNode.t),
        (get_reserved_nodenames E nodes ;;; get_reserved_nodenames E' nodes') s
        = (Return [], s).
Proof. intros. split; [|intros]; reflexivity. Qed.

(** ** The projection of the fleet configuration *)

Lemma from_queue_raises_missing_id q l : forall acc e,
  capacity_blocks_from_queue q l acc = Raise e -> e = missing_id.
Proof.
  induction l as [|[cr cfg] l IH]; simpl; intros acc e H.
  - discriminate.
  - destruct (_is_compute_resource_associated_to_capacity_block cfg); eauto.
    unfold _capacity_reservation_id_from_compute_resource_config in H.
    destruct (get cfg "CapacityReservationId"); eauto.
    injection H as <-. reflexivity.
Qed.

Lemma from_queue_missing_id q l cr cfg : forall acc,
  In (cr, cfg) l ->
  _is_compute_resource_associated_to_capacity_block cfg = true ->
  get cfg "CapacityReservationId" = None ->
  capacity_blocks_from_queue q l acc = Raise missing_id.
Proof.
  induction l as [|[cr' cfg'] l IH]; simpl; intros acc Hin Hcb Hid.
  - contradiction.
  - destruct Hin as [Heq | Hin].
    + injection Heq as -> ->. rewrite Hcb.
      unfold _capacity_reservation_id_from_compute_resource_config.
      rewrite Hid. reflexivity.
    + destruct (_is_compute_resource_associated_to_capacity_block cfg'); auto.
      unfold _capacity_reservation_id_from_compute_resource_config.
      destruct (get cfg' "CapacityReservationId"); auto.
Qed.

Lemma from_queues_missing_id l q qc cr cfg : forall acc,
  In (q, qc) l -> In (cr, cfg) (items qc) ->
  _is_compute_resource_associated_to_capacity_block cfg = true ->
  get cfg "CapacityReservationId" = None ->
  capacity_blocks_from_queues l acc = Raise missing_id.
Proof.
  induction l as [|[q' qc'] l IH]; simpl; intros acc Hin Hin' Hcb Hid.
  - contradiction.
  - destruct Hin as [Heq | Hin].
    + injection Heq as -> ->.
      rewrite (from_queue_missing_id q _ _ _ acc Hin' Hcb Hid). reflexivity.
    + destruct (capacity_blocks_from_queue q' (items qc') acc) eqn:Hq.
      * eapply IH; eassumption.
      * f_equal. eapply from_queue_raises_missing_id; eassumption.
Qed.

(** ** C5: a capacity block without reservation id *)

(** C5. When the fleet configuration has a compute resource whose
    [CapacityType] is ["capacity-block"] and which has no
    [CapacityReservationId], [_capacity_blocks_from_config] raises the
    [KeyError] of the missing key, whatever the other entries are; and a call
    of [get_reserved_nodenames] that is due to refresh raises that same error
    to its caller, having issued no call and changed nothing. *)
Theorem capacity_block_without_id_raises :
  forall (fc : fleet_config) (q : string) (qc : queue_config) (cr : string)
         (cfg : compute_resource_config),
    In (q, qc) (items fc) -> In (cr, cfg) (items qc) ->
    _is_compute_resource_associated_to_capacity_block cfg = true ->
    get cfg "CapacityReservationId" = None ->
    _capacity_blocks_from_config fc = Raise (KeyError "CapacityReservationId")
    /\ forall (E : Env) (nodes : list SlurmNode.t) (s : System),
        _fleet_config (self s) = fc ->
        is_time_to_update E (_capacity_blocks_update_time (self s)) = true ->
        get_reserved_nodenames E nodes s
        = (Raise (KeyError "CapacityReservationId"), s).
Proof.
  intros fc q qc cr cfg Hq Hcr Hcb Hid.
  assert (Hp : _capacity_blocks_from_config fc = Raise missing_id).
  { unfold _capacity_blocks_from_config. eapply from_queues_missing_id; eassumption. }
  split; [exact Hp|].
  intros E nodes s Hfc Hdue.
  unfold get_reserved_nodenames, _update_capacity_blocks_info_from_ec2,
    bind, gets, of_outcome.
  rewrite Hdue, Hfc, Hp. reflexivity.
Qed.

Lemma capacity_block_without_id_raises_witness :
  let fc : fleet_config :=
    [("queue1", [("cr-ondemand", [("CapacityType", "on-demand")]);
                 ("cr-block", [("CapacityType", "capacity-block")])])] in
  _capacity_blocks_from_config fc = Raise (KeyError "CapacityReservationId")
  /\ get_reserved_nodenames
       (MkEnv 1200 (fun _ => Return []))
       [SlurmNode.Build "queue1-st-cr-block-1" "queue1" "cr-block"]
       (MkSystem (Build fc [] (Some 0) []) (MkWorld [] []))
     = (Raise (KeyError "CapacityReservationId"),
        MkSystem (Build fc [] (Some 0) []) (MkWorld [] [])).
Proof.
  intros fc.
  pose proof (capacity_block_without_id_raises fc "queue1"
                [("cr-ondemand", [("CapacityType", "on-demand")]);
                 ("cr-block", [("CapacityType", "capacity-block")])]
                "cr-block" [("CapacityType", "capacity-block")]) as H.
  destruct H as [H1 H2].
  - left. reflexivity.
  - right. left. reflexivity.
  - reflexivity.
  - reflexivity.
  - split; [exact H1|]. apply H2; reflexivity.
Defined.

(** ** The scheduler's store *)

Local Open Scope list_scope.

Lemma get_set {V} (d : dict V) (k k' : string) (v : V) :
  get (set d k v) k' = if String.eqb k' k then Some v else get d k'.
Proof.
  induction d as [|[k0 v0] d IH]; simpl.
  - reflexivity.
  - destruct (String.eqb k k0) eqn:Hk; simpl.
    + apply String.eqb_eq in Hk. subst k0.
      destruct (String.eqb k' k); reflexivity.
    + destruct (String.eqb k' k0) eqn:Hk0.
      * apply String.eqb_eq in Hk0. subst k0.
        rewrite String.eqb_sym, Hk. reflexivity.
      * exact IH.
Qed.

Lemma set_same {V} (d : dict V) (k : string) (v : V) :
  get d k = Some v -> set d k v = d.
Proof.
  induction d as [|[k0 v0] d IH]; simpl; intros H.
  - discriminate.
  - destruct (String.eqb k k0).
    + injection H as ->. reflexivity.
    + f_equal. auto.
Qed.

Lemma get_remove (d : dict string) (k k' : string) :
  get (remove_reservation k d) k'
  = if String.eqb k' k then None else get d k'.
Proof.
  unfold remove_reservation.
  induction d as [|[k0 v0] d IH]; simpl.
  - destruct (String.eqb k' k); reflexivity.
  - destruct (String.eqb k k0) eqn:Hk; simpl.
    + apply String.eqb_eq in Hk. subst k0. rewrite IH.
      destruct (String.eqb k' k); reflexivity.
    + rewrite IH. destruct (String.eqb k' k0) eqn:Hk0; [|reflexivity].
      apply String.eqb_eq in Hk0. subst k0.
      rewrite String.eqb_sym, Hk. reflexivity.
Qed.

Lemma remove_absent (d : dict string) (k : string) :
  get d k = None -> remove_reservation k d = d.
Proof.
  unfold remove_reservation.
  induction d as [|[k0 v0] d IH]; simpl; intros H.
  - reflexivity.
  - destruct (String.eqb k k0); [discriminate|]. simpl. f_equal. auto.
Qed.

Lemma contains_get {V} (d : dict V) (k : string) :
  contains d k = false <-> get d k = None.
Proof. unfold contains. destruct (get d k); split; congruence. Qed.

Lemma existsb_eqb_In (x : string) (l : list string) :
  existsb (String.eqb x) l = true <-> In x l.
Proof.
  rewrite existsb_exists. split.
  - intros [y [Hy Heq]]. apply String.eqb_eq in Heq. subst. exact Hy.
  - intros H. exists x. split; [exact H | apply String.eqb_refl].
Qed.

(** ** One reconciliation step, by cases *)

Lemma app_two {A} (l : list A) (a b : A) : (l ++ [a]) ++ [b] = l ++ [a; b].
Proof. rewrite <- app_assoc. reflexivity. Qed.

Lemma update_slurm_reservation_active (E : Env) (cb : CapacityBlock.t) (w : World) :
  CapacityBlock.is_active cb = Return true ->
  let name := CapacityBlock.slurm_reservation_name cb in
  _update_slurm_reservation E cb w
  = (Return [],
     if contains (reservations w) name
     then MkWorld (remove_reservation name (reservations w))
                  (calls w ++ [DoesSlurmReservationExist name;
                               DeleteSlurmReservation name])
     else MkWorld (reservations w) (calls w ++ [DoesSlurmReservationExist name])).
Proof.
  intros Ha name.
  unfold _update_slurm_reservation, does_slurm_reservation_exist,
    delete_slurm_reservation, record_call, set_reservations, bind, gets,
    modify, of_outcome, ret.
  simpl. rewrite Ha. fold name.
  destruct (contains (reservations w) name); simpl; [rewrite app_two|]; reflexivity.
Qed.

Lemma update_slurm_reservation_inactive (E : Env) (cb : CapacityBlock.t) (w : World) :
  CapacityBlock.is_active cb = Return false ->
  let name := CapacityBlock.slurm_reservation_name cb in
  let nodes := join "," (CapacityBlock.nodenames cb) in
  _update_slurm_reservation E cb w
  = (Return (CapacityBlock.nodenames cb),
     MkWorld (set (reservations w) name nodes)
             (calls w ++ [DoesSlurmReservationExist name;
                          if contains (reservations w) name
                          then UpdateSlurmReservation name nodes
                          else CreateSlurmReservation name (now E) nodes])).
Proof.
  intros Ha name nodes.
  unfold _update_slurm_reservation, does_slurm_reservation_exist,
    update_slurm_reservation, create_slurm_reservation, record_call,
    set_reservations, bind, gets, modify, of_outcome, ret.
  simpl. rewrite Ha. fold name. fold nodes.
  destruct (contains (reservations w) name); simpl; rewrite app_two; reflexivity.
Qed.

Lemma update_slurm_reservation_no_info (E : Env) (cb : CapacityBlock.t) (w : World) :
  CapacityBlock._capacity_block_reservation_info cb = None ->
  _update_slurm_reservation E cb w
  = (Raise (AttributeError "state"),
     MkWorld (reservations w)
             (calls w ++ [DoesSlurmReservationExist
                            (CapacityBlock.slurm_reservation_name cb)])).
Proof.
  intros Hn.
  unfold _update_slurm_reservation, does_slurm_reservation_exist, record_call,
    bind, gets, modify, of_outcome, CapacityBlock.is_active, CapacityBlock.state.
  simpl. rewrite Hn. reflexivity.
Qed.

Lemma state_active_is_active (cb : CapacityBlock.t) :
  CapacityBlock.state cb = Return "active" ->
  CapacityBlock.is_active cb = Return true.
Proof. unfold CapacityBlock.is_active. intros ->. reflexivity. Qed.

(** ** C6: an active capacity block *)

(** C6. For a capacity block whose state is ["active"],
    [_update_slurm_reservation] returns no node name. It asks whether the
    reservation named for the block exists; when it does, the one further
    call is the [delete] of that reservation, which is then gone; when it
    does not, no further call is issued and the reservations are unchanged.
    A second reconciliation of the same block right after issues the
    existence query only: no further [delete], and again no node name. *)
Theorem active_block_releases_nodes :
  forall (E E' : Env) (cb : CapacityBlock.t) (w : World),
    CapacityBlock.state cb = Return "active" ->
    let name := CapacityBlock.slurm_reservation_name cb in
    exists w1 w2 : World,
      _update_slurm_reservation E cb w = (Return [], w1)
      /\ (contains (reservations w) name = true ->
          calls w1 = calls w ++ [DoesSlurmReservationExist name;
                                 DeleteSlurmReservation name]
          /\ reservations w1 = remove_reservation name (reservations w))
      /\ (contains (reservations w) name = false ->
          calls w1 = calls w ++ [DoesSlurmReservationExist name]
          /\ reservations w1 = reservations w)
      /\ contains (reservations w1) name = false
      /\ _update_slurm_reservation E' cb w1 = (Return [], w2)
      /\ calls w2 = calls w1 ++ [DoesSlurmReservationExist name]
      /\ reservations w2 = reservations w1.
Proof.
  intros E E' cb w Hs name.
  apply state_active_is_active in Hs.
  pose proof (update_slurm_reservation_active E cb w Hs) as H1.
  cbv zeta in H1. fold name in H1.
  destruct (contains (reservations w) name) eqn:Hc.
  - set (w1 := MkWorld (remove_reservation name (reservations w))
                       (calls w ++ [DoesSlurmReservationExist name;
                                    DeleteSlurmReservation name])) in *.
    assert (Hc1 : contains (reservations w1) name = false).
    { apply contains_get. simpl. rewrite get_remove, String.eqb_refl. reflexivity. }
    pose proof (update_slurm_reservation_active E' cb w1 Hs) as H2.
    cbv zeta in H2. fold name in H2. rewrite Hc1 in H2.
    eexists; eexists. split; [exact H1|].
    split; [intros _; split; reflexivity|].
    split; [intros; discriminate|].
    split; [exact Hc1|].
    split; [exact H2|]. split; reflexivity.
  - pose proof (update_slurm_reservation_active E' cb
                  (MkWorld (reservations w)
                           (calls w ++ [DoesSlurmReservationExist name])) Hs) as H2.
    cbv zeta in H2. fold name in H2. simpl in H2. rewrite Hc in H2.
    eexists; eexists. split; [exact H1|].
    split; [intros; discriminate|].
    split; [intros _; split; reflexivity|].
    split; [exact Hc|].
    split; [exact H2|]. split; reflexivity.
Qed.

Lemma active_block_releases_nodes_witness :
  let cb := CapacityBlock.Build "cr-1" "q1" "r1"
              (Some (CapacityBlockReservationInfo.Build "cr-1" "active"))
              ["q1-st-r1-1"; "q1-st-r1-2"] in
  let w := MkWorld [("maintenance", "n1"); ("pcluster-cr-1", "q1-st-r1-1")] [] in
  exists w1 w2 : World,
    _update_slurm_reservation (MkEnv 100 (fun _ => Return [])) cb w = (Return [], w1)
    /\ calls w1 = [DoesSlurmReservationExist "pcluster-cr-1";
                   DeleteSlurmReservation "pcluster-cr-1"]
    /\ reservations w1 = [("maintenance", "n1")]
    /\ _update_slurm_reservation (MkEnv 200 (fun _ => Return [])) cb w1 = (Return [], w2)
    /\ calls w2 = calls w1 ++ [DoesSlurmReservationExist "pcluster-cr-1"].
Proof.
  intros cb w.
  destruct (active_block_releases_nodes
              (MkEnv 100 (fun _ => Return [])) (MkEnv 200 (fun _ => Return []))
              cb w eq_refl)
    as (w1 & w2 & H1 & Hex & _ & _ & H2 & Hc2 & _).
  destruct (Hex eq_refl) as [Hc1 Hr1].
  exists w1, w2. repeat split; assumption.
Defined.

(** ** C4: an id absent from the answer of EC2 *)

(** C4 (evaluation of the code). The fleet configuration names the capacity
    blocks [cr-1] and [cr-2]; EC2 answers for [cr-2] only. The capacity block
    [cr-1] is left without EC2 info, and its reconciliation raises
    [AttributeError] from [state()] right after the existence query: no
    reservation is created or updated for it, its node is not in the list of
    reserved nodes (no list is returned, and the cached one stays empty), and
    [cr-2], which comes after it, is not reconciled either. *)
Theorem absent_id_raises_attribute_error :
  let fc : fleet_config :=
    [("q1", [("r1", [("CapacityType", "capacity-block");
                     ("CapacityReservationId", "cr-1")]);
             ("r2", [("CapacityType", "capacity-block");
                     ("CapacityReservationId", "cr-2")])])] in
  let E := MkEnv 1200
             (fun _ => Return [CapacityBlockReservationInfo.Build "cr-2" "pending"]) in
  let nodes := [SlurmNode.Build "q1-st-r1-1" "q1" "r1";
                SlurmNode.Build "q1-st-r2-1" "q1" "r2"] in
  let s := MkSystem (Build fc [] (Some 0) []) (MkWorld [] []) in
  _update_slurm_reservation E
    (CapacityBlock.Build "cr-1" "q1" "r1" None ["q1-st-r1-1"]) (MkWorld [] [])
  = (Raise (AttributeError "state"),
     MkWorld [] [DoesSlurmReservationExist "pcluster-cr-1"])
  /\ exists s' : System,
      get_reserved_nodenames E nodes s = (Raise (AttributeError "state"), s')
      /\ get (_capacity_blocks (self s')) "cr-1"
         = Some (CapacityBlock.Build "cr-1" "q1" "r1" None ["q1-st-r1-1"])
      /\ _reserved_nodenames (self s') = []
      /\ reservations (world s') = []
      /\ calls (world s')
         = [DescribeCapacityReservations ["cr-1"; "cr-2"];
            DoesSlurmReservationExist "pcluster-cr-1"].
Proof.
  cbv zeta. split; [reflexivity|].
  eexists. split; [vm_compute; reflexivity|].
  repeat split; reflexivity.
Qed.

(** ** C7: the sweep of leftover reservations *)

Lemma cleanup_reservations_spec (ids : list string) (l : list SlurmReservation.t) :
  forall w : World,
    let leftovers := filter (is_leftover ids) (map SlurmReservation.name l) in
    cleanup_reservations ids l w
    = (Return tt,
       MkWorld (fold_left (fun d n => remove_reservation n d) leftovers
                          (reservations w))
               (calls w ++ map DeleteSlurmReservation leftovers)).
Proof.
  induction l as [|r l IH]; intros w; cbv zeta in *.
  - simpl. unfold ret. rewrite app_nil_r. destruct w; reflexivity.
  - simpl.
    set (name := SlurmReservation.name r).
    assert (Hcond :
      (if CapacityBlock.is_capacity_block_slurm_reservation name
       then if negb (existsb (String.eqb
                       (CapacityBlock.slurm_reservation_name_to_id name)) ids)
            then delete_slurm_reservation name else ret tt
       else ret tt)
      = if is_leftover ids name then delete_slurm_reservation name else ret tt).
    { unfold is_leftover.
      destruct (CapacityBlock.is_capacity_block_slurm_reservation name); simpl;
        [destruct (existsb _ ids)|]; reflexivity. }
    rewrite Hcond. unfold bind.
    destruct (is_leftover ids name); simpl.
    + rewrite IH. simpl. rewrite <- app_assoc. reflexivity.
    + rewrite IH. reflexivity.
Qed.

Lemma fold_remove_filter (names : list string) : forall d : dict string,
  fold_left (fun d n => remove_reservation n d) names d
  = filter (fun kv => negb (existsb (String.eqb (fst kv)) names)) d.
Proof.
  induction names as [|n names IH]; intros d; simpl.
  - induction d as [|kv d IHd]; simpl; [|rewrite <- IHd]; reflexivity.
  - rewrite IH. unfold remove_reservation.
    induction d as [|kv d IHd]; simpl; [reflexivity|].
    rewrite (String.eqb_sym n (fst kv)).
    destruct (String.eqb (fst kv) n); simpl; rewrite IHd; reflexivity.
Qed.

Lemma existsb_filter_keys (P : string -> bool) (l : list string) (k : string) :
  In k l -> existsb (String.eqb k) (filter P l) = P k.
Proof.
  intros Hin. destruct (P k) eqn:HP.
  - apply existsb_eqb_In. apply filter_In. split; assumption.
  - destruct (existsb (String.eqb k) (filter P l)) eqn:Hex; [|reflexivity].
    apply existsb_eqb_In in Hex. apply filter_In in Hex. destruct Hex. congruence.
Qed.

Lemma is_leftover_iff (ids : list string) (name : string) :
  is_leftover ids name = true
  <-> CapacityBlock.is_capacity_block_slurm_reservation name = true
      /\ ~ In (CapacityBlock.slurm_reservation_name_to_id name) ids.
Proof.
  unfold is_leftover. rewrite andb_true_iff, negb_true_iff.
  rewrite <- existsb_eqb_In. split; intros [H1 H2]; split; auto.
  - congruence.
  - destruct (existsb _ ids); congruence.
Qed.

Lemma cleanup_leftover_run (s : System) :
  let ids := keys (_capacity_blocks (self s)) in
  let before := reservations (world s) in
  _cleanup_leftover_slurm_reservations s
  = (Return tt,
     MkSystem (self s)
       (MkWorld (filter (fun kv => negb (is_leftover ids (fst kv))) before)
                (calls (world s)
                 ++ GetSlurmReservationsInfo
                    :: map DeleteSlurmReservation
                         (filter (is_leftover ids) (keys before))))).
Proof.
  intros ids before.
  assert (Hnames : map SlurmReservation.name
                     (map (fun kv => SlurmReservation.Build (fst kv) (snd kv)) before)
                   = keys before).
  { unfold keys. rewrite map_map. reflexivity. }
  unfold _cleanup_leftover_slurm_reservations, in_world,
    get_slurm_reservations_info, record_call, bind, gets, modify.
  simpl. rewrite cleanup_reservations_spec. cbv zeta. simpl.
  fold ids. fold before. rewrite Hnames, fold_remove_filter.
  f_equal. f_equal. f_equal.
  - apply filter_ext_in. intros [k v] Hin. simpl. f_equal.
    apply existsb_filter_keys. unfold keys. apply in_map_iff.
    exists (k, v). split; [reflexivity | exact Hin].
  - rewrite <- app_assoc. reflexivity.
Qed.

(** C7. The sweep lists the scheduler's reservations and then issues one
    [delete] for each listed reservation whose name starts with the prefix
    and whose suffix is not a key of [_capacity_blocks], in the order of the
    listing, and no other call; these reservations are gone afterwards and
    all the others are kept as they were. So a reservation whose name has no
    prefix stays, and so does one whose suffix is a current key; the manager
    itself is unchanged. *)
Theorem cleanup_deletes_exactly_leftovers :
  forall s : System,
    let ids := keys (_capacity_blocks (self s)) in
    let before := reservations (world s) in
    exists w' : World,
      _cleanup_leftover_slurm_reservations s = (Return tt, MkSystem (self s) w')
      /\ calls w'
         = calls (world s)
           ++ GetSlurmReservationsInfo
              :: map DeleteSlurmReservation (filter (is_leftover ids) (keys before))
      /\ reservations w'
         = filter (fun kv => negb (is_leftover ids (fst kv))) before
      /\ (forall name : string,
             is_leftover ids name = true
             <-> Py.startswith name SLURM_RESERVATION_NAME_PREFIX = true
                 /\ ~ In (CapacityBlock.slurm_reservation_name_to_id name) ids)
      /\ (forall name nodes : string,
             In (name, nodes) before ->
             Py.startswith name SLURM_RESERVATION_NAME_PREFIX = false ->
             In (name, nodes) (reservations w'))
      /\ (forall name nodes : string,
             In (name, nodes) before ->
             In (CapacityBlock.slurm_reservation_name_to_id name) ids ->
             In (name, nodes) (reservations w')).
Proof.
  intros s ids before.
  set (w' := MkWorld (filter (fun kv => negb (is_leftover ids (fst kv))) before)
               (calls (world s)
                ++ GetSlurmReservationsInfo
                   :: map DeleteSlurmReservation
                        (filter (is_leftover ids) (keys before)))).
  assert (Hkeep : forall name nodes,
             In (name, nodes) before -> is_leftover ids name = false ->
             In (name, nodes) (reservations w')).
  { intros name nodes Hin Hl. simpl. apply filter_In. split; [exact Hin|].
    simpl. rewrite Hl. reflexivity. }
  exists w'. split; [|split; [reflexivity|split; [reflexivity|split; [|split]]]].
  - apply cleanup_leftover_run.
  - intros name. apply is_leftover_iff.
  - intros name nodes Hin Hp. apply Hkeep; [exact Hin|].
    unfold is_leftover, CapacityBlock.is_capacity_block_slurm_reservation.
    rewrite Hp. reflexivity.
  - intros name nodes Hin Hid. apply Hkeep; [exact Hin|].
    unfold is_leftover. apply existsb_eqb_In in Hid. rewrite Hid.
    apply andb_false_r.
Qed.

Lemma cleanup_deletes_exactly_leftovers_witness :
  let s := MkSystem
             (Build [] [("cr-1", CapacityBlock.__init__ "cr-1" "q1" "r1")] (Some 0) [])
             (MkWorld [("pcluster-cr-1", "q1-st-r1-1"); ("maintenance", "q9-st-x-1");
                       ("pcluster-cr-0", "q1-st-r0-1")] []) in
  exists w' : World,
    _cleanup_leftover_slurm_reservations s = (Return tt, MkSystem (self s) w')
    /\ calls w' = [GetSlurmReservationsInfo; DeleteSlurmReservation "pcluster-cr-0"]
    /\ In ("maintenance", "q9-st-x-1") (reservations w')
    /\ In ("pcluster-cr-1", "q1-st-r1-1") (reservations w').
Proof.
  intros s.
  destruct (cleanup_deletes_exactly_leftovers s)
    as (w' & Hrun & Hcalls & _ & _ & Hother & Hkey).
  exists w'. split; [exact Hrun|]. split; [exact Hcalls|]. split.
  - apply Hother; [right; left; reflexivity | reflexivity].
  - apply Hkey; [left; reflexivity | left; reflexivity].
Defined.

(** ** The reconciliation loop *)

Lemma is_active_with_info (cb : CapacityBlock.t) :
  has_ec2_info cb -> CapacityBlock.is_active cb = Return (negb (is_withheld cb)).
Proof.
  unfold has_ec2_info, is_withheld, CapacityBlock.is_active, CapacityBlock.state.
  destruct (CapacityBlock._capacity_block_reservation_info cb) as [info|];
    [|congruence].
  intros _. destruct (String.eqb _ "active"); reflexivity.
Qed.

Lemma update_slurm_reservation_spec (E : Env) (cb : CapacityBlock.t) (w : World) :
  has_ec2_info cb ->
  _update_slurm_reservation E cb w
  = (Return (withheld_nodes cb),
     MkWorld (reconciled cb (reservations w))
             (calls w
              ++ DoesSlurmReservationExist (CapacityBlock.slurm_reservation_name cb)
                 :: reconciling_calls E cb (reservations w))).
Proof.
  intros Hinfo. pose proof (is_active_with_info cb Hinfo) as Ha.
  unfold withheld_nodes, reconciled, reconciling_calls.
  destruct (is_withheld cb); simpl in Ha.
  - rewrite (update_slurm_reservation_inactive E cb w Ha). reflexivity.
  - rewrite (update_slurm_reservation_active E cb w Ha).
    destruct (contains _ _) eqn:Hc; [reflexivity|].
    apply contains_get in Hc. rewrite (remove_absent _ _ Hc). reflexivity.
Qed.

Lemma update_slurm_reservations_spec (E : Env) (cbs : list CapacityBlock.t) :
  Forall has_ec2_info cbs ->
  forall (acc : list string) (w : World),
    update_slurm_reservations E cbs acc w
    = (Return (acc ++ flat_map withheld_nodes cbs),
       MkWorld (fold_left (fun d cb => reconciled cb d) cbs (reservations w))
               (calls w ++ loop_calls E cbs (reservations w))).
Proof.
  induction 1 as [|cb cbs Hcb Hcbs IH]; intros acc w; simpl.
  - unfold ret. rewrite !app_nil_r. destruct w; reflexivity.
  - unfold bind. rewrite (update_slurm_reservation_spec E cb w Hcb).
    rewrite IH. simpl. rewrite <- !app_assoc. reflexivity.
Qed.

(** *** A second run of the loop *)

Lemma reconciled_settles (cb : CapacityBlock.t) (d : dict string) :
  settled (reconciled cb d) cb.
Proof.
  unfold settled, reconciled. destruct (is_withheld cb).
  - rewrite get_set, String.eqb_refl. reflexivity.
  - rewrite get_remove, String.eqb_refl. reflexivity.
Qed.

Lemma reconciled_other (cb cb' : CapacityBlock.t) (d : dict string) :
  CapacityBlock.capacity_block_id cb' <> CapacityBlock.capacity_block_id cb ->
  get (reconciled cb' d) (CapacityBlock.slurm_reservation_name cb)
  = get d (CapacityBlock.slurm_reservation_name cb).
Proof.
  intros Hne.
  assert (Hn : String.eqb (CapacityBlock.slurm_reservation_name cb)
                          (CapacityBlock.slurm_reservation_name cb') = false).
  { apply String.eqb_neq. intros Heq. apply Hne. symmetry.
    apply (slurm_reservation_name_injective cb cb' Heq). }
  unfold reconciled. destruct (is_withheld cb').
  - rewrite get_set, Hn. reflexivity.
  - rewrite get_remove, Hn. reflexivity.
Qed.

Lemma settled_after_others (cb : CapacityBlock.t) (cbs : list CapacityBlock.t) :
  ~ In (CapacityBlock.capacity_block_id cb)
       (map CapacityBlock.capacity_block_id cbs) ->
  forall d : dict string,
    settled d cb -> settled (fold_left (fun d cb => reconciled cb d) cbs d) cb.
Proof.
  induction cbs as [|cb' cbs IH]; simpl; intros Hnin d Hs.
  - exact Hs.
  - apply IH.
    + intros Hin. apply Hnin. right. exact Hin.
    + unfold settled in *. rewrite reconciled_other; [exact Hs|].
      intros Heq. apply Hnin. left. exact Heq.
Qed.

Lemma loop_settles (cbs : list CapacityBlock.t) :
  NoDup (map CapacityBlock.capacity_block_id cbs) ->
  forall d : dict string,
    Forall (settled (fold_left (fun d cb => reconciled cb d) cbs d)) cbs.
Proof.
  induction cbs as [|cb cbs IH]; simpl; intros Hnd d.
  - constructor.
  - inversion Hnd as [|? ? Hnin Hnd']; subst. constructor.
    + apply settled_after_others; [exact Hnin | apply reconciled_settles].
    + apply IH. exact Hnd'.
Qed.

Lemma settled_reconciled (cb : CapacityBlock.t) (d : dict string) :
  settled d cb -> reconciled cb d = d.
Proof.
  unfold settled, reconciled. destruct (is_withheld cb); intros H.
  - apply set_same. exact H.
  - apply remove_absent. exact H.
Qed.

Lemma settled_calls (E : Env) (cb : CapacityBlock.t) (d : dict string) :
  settled d cb ->
  reconciling_calls E cb d
  = if is_withheld cb
    then [UpdateSlurmReservation (CapacityBlock.slurm_reservation_name cb)
                                 (nodes_field cb)]
    else [].
Proof.
  unfold settled, reconciling_calls, contains. intros ->.
  destruct (is_withheld cb); reflexivity.
Qed.

Lemma settled_loop (E : Env) (cbs : list CapacityBlock.t) (d : dict string) :
  Forall (settled d) cbs ->
  fold_left (fun d cb => reconciled cb d) cbs d = d
  /\ filter is_mutation (loop_calls E cbs d)
     = map (fun cb => UpdateSlurmReservation
                        (CapacityBlock.slurm_reservation_name cb) (nodes_field cb))
           (filter is_withheld cbs).
Proof.
  induction 1 as [|cb cbs Hcb Hcbs [IH1 IH2]]; simpl.
  - split; reflexivity.
  - rewrite (settled_reconciled cb d Hcb), (settled_calls E cb d Hcb).
    split; [exact IH1|].
    destruct (is_withheld cb); simpl; rewrite IH2; reflexivity.
Qed.

(** ** C2: running the reconciler twice *)

(** C2 (as the code has it). For capacity blocks keyed by distinct ids that
    all carry an EC2 state, a second run of the reconciliation loop right
    after a first one, with the same states and node names, returns the same
    reserved nodes and leaves the scheduler's reservations as the first run
    left them; the calls of the second run that change the scheduler are one
    [update] for each capacity block that is not active, rewriting the node
    list it already has, and nothing else: no [create], no [delete], and no
    call for an active capacity block. *)
Theorem second_reconciliation_only_updates :
  forall (E E' : Env) (cbs : list CapacityBlock.t) (w : World),
    NoDup (map CapacityBlock.capacity_block_id cbs) ->
    Forall has_ec2_info cbs ->
    exists (r : list string) (w1 w2 : World) (cs : list call),
      update_slurm_reservations E cbs [] w = (Return r, w1)
      /\ update_slurm_reservations E' cbs [] w1 = (Return r, w2)
      /\ reservations w2 = reservations w1
      /\ calls w2 = calls w1 ++ cs
      /\ filter is_mutation cs
         = map (fun cb => UpdateSlurmReservation
                            (CapacityBlock.slurm_reservation_name cb)
                            (join "," (CapacityBlock.nodenames cb)))
               (filter is_withheld cbs).
Proof.
  intros E E' cbs w Hnd Hinfo.
  pose proof (update_slurm_reservations_spec E cbs Hinfo [] w) as H1.
  set (d1 := fold_left (fun d cb => reconciled cb d) cbs (reservations w)) in *.
  set (w1 := MkWorld d1 (calls w ++ loop_calls E cbs (reservations w))) in *.
  pose proof (update_slurm_reservations_spec E' cbs Hinfo [] w1) as H2.
  destruct (settled_loop E' cbs d1 (loop_settles cbs Hnd (reservations w)))
    as [Hfix Hcalls].
  simpl in H2. rewrite Hfix in H2.
  exists (flat_map withheld_nodes cbs), w1, (MkWorld d1 (calls w1 ++ loop_calls E' cbs d1)),
    (loop_calls E' cbs d1).
  split; [exact H1|]. split; [exact H2|].
  split; [reflexivity|]. split; [reflexivity|]. exact Hcalls.
Qed.

Lemma second_reconciliation_only_updates_witness :
  let cbs :=
    [CapacityBlock.Build "cr-1" "q1" "r1"
       (Some (CapacityBlockReservationInfo.Build "cr-1" "pending"))
       ["q1-st-r1-1"; "q1-st-r1-2"];
     CapacityBlock.Build "cr-2" "q1" "r2"
       (Some (CapacityBlockReservationInfo.Build "cr-2" "active"))
       ["q1-st-r2-1"]] in
  let E := MkEnv 1200 (fun _ => Return []) in
  let E' := MkEnv 1260 (fun _ => Return []) in
  let w := MkWorld [("pcluster-cr-2", "q1-st-r2-1")] [] in
  NoDup (map CapacityBlock.capacity_block_id cbs)
  /\ Forall has_ec2_info cbs
  /\ exists (r : list string) (w1 w2 : World) (cs : list call),
      update_slurm_reservations E cbs [] w = (Return r, w1)
      /\ update_slurm_reservations E' cbs [] w1 = (Return r, w2)
      /\ reservations w2 = reservations w1
      /\ calls w2 = calls w1 ++ cs
      /\ filter is_mutation cs
         = [UpdateSlurmReservation "pcluster-cr-1" "q1-st-r1-1,q1-st-r1-2"].
Proof.
  intros cbs E E' w.
  assert (Hnd : NoDup (map CapacityBlock.capacity_block_id cbs)).
  { simpl. repeat constructor; simpl; intuition discriminate. }
  assert (Hinfo : Forall has_ec2_info cbs).
  { repeat constructor; discriminate. }
  split; [exact Hnd|]. split; [exact Hinfo|].
  exact (second_reconciliation_only_updates E E' cbs w Hnd Hinfo).
Defined.

(** C2, as stated, fails: one capacity block in state ["pending"] with two
    nodes and no reservation yet. The first run creates the reservation; the
    second run, with nothing changed, finds it and issues an [update]. *)
Lemma second_reconciliation_issues_update :
  let cb := CapacityBlock.Build "cr-1" "q1" "r1"
              (Some (CapacityBlockReservationInfo.Build "cr-1" "pending"))
              ["q1-st-r1-1"; "q1-st-r1-2"] in
  let E := MkEnv 1200 (fun _ => Return []) in
  exists (w1 w2 : World) (cs : list call),
    update_slurm_reservations E [cb] [] (MkWorld [] [])
    = (Return ["q1-st-r1-1"; "q1-st-r1-2"], w1)
    /\ calls w1 = [DoesSlurmReservationExist "pcluster-cr-1";
                   CreateSlurmReservation "pcluster-cr-1" 1200
                                          "q1-st-r1-1,q1-st-r1-2"]
    /\ update_slurm_reservations E [cb] [] w1
       = (Return ["q1-st-r1-1"; "q1-st-r1-2"], w2)
    /\ calls w2 = calls w1 ++ cs
    /\ filter is_mutation cs
       = [UpdateSlurmReservation "pcluster-cr-1" "q1-st-r1-1,q1-st-r1-2"]
    /\ filter is_mutation cs <> [].
Proof.
  cbv zeta. eexists. eexists.
  exists [DoesSlurmReservationExist "pcluster-cr-1";
          UpdateSlurmReservation "pcluster-cr-1" "q1-st-r1-1,q1-st-r1-2"].
  split; [vm_compute; reflexivity|].
  split; [reflexivity|].
  split; [vm_compute; reflexivity|].
  split; [reflexivity|].
  split; [reflexivity | discriminate].
Qed.

(** ** C8: no capacity block in the configuration *)

Lemma from_queue_no_capacity_block q l : forall acc,
  (forall cr cfg, In (cr, cfg) l ->
                  _is_compute_resource_associated_to_capacity_block cfg = false) ->
  capacity_blocks_from_queue q l acc = Return acc.
Proof.
  induction l as [|[cr cfg] l IH]; simpl; intros acc H.
  - reflexivity.
  - rewrite (H cr cfg (or_introl eq_refl)). apply IH.
    intros cr' cfg' Hin. apply (H cr' cfg'). right. exact Hin.
Qed.

Lemma from_config_no_capacity_block (fc : fleet_config) :
  no_capacity_block fc -> _capacity_blocks_from_config fc = Return [].
Proof.
  unfold no_capacity_block, _capacity_blocks_from_config, items.
  generalize (@nil (string * CapacityBlock.t)).
  induction fc as [|[q qc] fc IH]; simpl; intros acc H.
  - reflexivity.
  - rewrite from_queue_no_capacity_block.
    + apply IH. intros q' qc' cr cfg Hq. apply (H q' qc' cr cfg). right. exact Hq.
    + intros cr cfg Hin. apply (H q qc cr cfg); [left; reflexivity | exact Hin].
Qed.

Lemma associate_nodes_nil (nodes : list SlurmNode.t) :
  fold_left (fun d node => associate_node node d) nodes [] = [].
Proof. induction nodes as [|n nodes IH]; simpl; auto. Qed.

Lemma deletes_are_not_describe (names : list string) :
  filter is_describe (GetSlurmReservationsInfo :: map DeleteSlurmReservation names)
  = [].
Proof. simpl. induction names as [|n names IH]; simpl; auto. Qed.

(** Running a sequence whose first computation is known. *)
Lemma bind_Return {S A B} (c : M S A) (k : A -> M S B) (s s' : S) (a : A) :
  c s = (Return a, s') -> bind c k s = k a s'.
Proof. unfold bind. intros ->. reflexivity. Qed.

Lemma bind_Raise {S A B} (c : M S A) (k : A -> M S B) (s s' : S) (e : exn) :
  c s = (Raise e, s') -> bind c k s = (Raise e, s').
Proof. unfold bind. intros ->. reflexivity. Qed.

Lemma update_info_no_capacity_block (E : Env) (s : System) :
  _capacity_blocks_from_config (_fleet_config (self s)) = Return [] ->
  _update_capacity_blocks_info_from_ec2 E s
  = (Return tt,
     MkSystem (Build (_fleet_config (self s)) [] (Some (now E))
                     (_reserved_nodenames (self s)))
              (world s)).
Proof.
  intros Hp. unfold _update_capacity_blocks_info_from_ec2, bind, gets, of_outcome.
  rewrite Hp. reflexivity.
Qed.

Lemma associate_run (nodes : list SlurmNode.t) (s : System) :
  _associate_nodenames_to_capacity_blocks nodes s
  = (Return tt,
     MkSystem (Build (_fleet_config (self s))
                     (fold_left (fun d node => associate_node node d) nodes
                                (_capacity_blocks (self s)))
                     (_capacity_blocks_update_time (self s))
                     (_reserved_nodenames (self s)))
              (world s)).
Proof. reflexivity. Qed.

(** C8. When no compute resource of the fleet configuration is a capacity
    block, a call of [get_reserved_nodenames] that refreshes returns the empty
    list; it issues no [describe_capacity_reservations] call: its only calls
    are the listing of the scheduler's reservations and the deletion of those
    that carry the prefix, none of which has a capacity block any more. *)
Theorem no_capacity_block_no_describe :
  forall (E : Env) (nodes : list SlurmNode.t) (s : System),
    no_capacity_block (_fleet_config (self s)) ->
    is_time_to_update E (_capacity_blocks_update_time (self s)) = true ->
    exists (w' : World) (cs : list call),
      get_reserved_nodenames E nodes s
      = (Return [],
         MkSystem (Build (_fleet_config (self s)) [] (Some (now E)) []) w')
      /\ calls w' = calls (world s) ++ cs
      /\ cs = GetSlurmReservationsInfo
              :: map DeleteSlurmReservation
                   (filter (is_leftover []) (keys (reservations (world s))))
      /\ filter is_describe cs = [].
Proof.
  intros E nodes s Hno Hdue.
  pose proof (from_config_no_capacity_block _ Hno) as Hp.
  eexists. eexists. split; [|split; [|split; [reflexivity|]]].
  - unfold get_reserved_nodenames.
    erewrite bind_Return by reflexivity. rewrite Hdue.
    erewrite bind_Return; cycle 1.
    + erewrite bind_Return by (apply update_info_no_capacity_block; exact Hp).
      erewrite bind_Return by apply associate_run.
      simpl. rewrite associate_nodes_nil.
      erewrite bind_Return by reflexivity.
      erewrite bind_Return by reflexivity.
      erewrite bind_Return by reflexivity.
      rewrite cleanup_leftover_run. simpl. reflexivity.
    + reflexivity.
  - reflexivity.
  - apply deletes_are_not_describe.
Qed.

Lemma no_capacity_block_no_describe_witness :
  let fc : fleet_config :=
    [("queue1", [("cr-ondemand", [("CapacityType", "on-demand")]);
                 ("cr-default", [("Api", "create-fleet")])]);
     ("queue2", [("cr-spot", [("CapacityType", "spot")])])] in
  let s := MkSystem (Build fc [] (Some 0) [])
                    (MkWorld [("maintenance", "queue1-st-cr-ondemand-1")] []) in
  let E := MkEnv 1200 (fun _ => Raise (ClientError "unreachable")) in
  exists w' : World,
    get_reserved_nodenames E
      [SlurmNode.Build "queue1-st-cr-ondemand-1" "queue1" "cr-ondemand"] s
    = (Return [], MkSystem (Build fc [] (Some 1200) []) w')
    /\ calls w' = [GetSlurmReservationsInfo].
Proof.
  intros fc s E.
  destruct (no_capacity_block_no_describe E
              [SlurmNode.Build "queue1-st-cr-ondemand-1" "queue1" "cr-ondemand"] s)
    as (w' & cs & Hrun & Hcalls & Hcs & _).
  - intros q qc cr cfg Hq Hcr. simpl in Hq.
    destruct Hq as [Hq | [Hq | []]]; injection Hq as <- <-; simpl in Hcr.
    + destruct Hcr as [Hcr | [Hcr | []]]; injection Hcr as <- <-; reflexivity.
    + destruct Hcr as [Hcr | []]; injection Hcr as <- <-; reflexivity.
  - reflexivity.
  - exists w'. split; [exact Hrun|]. rewrite Hcalls, Hcs. reflexivity.
Defined.

(** ** C3: EC2 fails during a refresh *)

Lemma update_info_describe_raises (E : Env) (s : System)
    (cbs : dict CapacityBlock.t) (e : exn) :
  _capacity_blocks_from_config (_fleet_config (self s)) = Return cbs ->
  cbs <> [] ->
  describe_capacity_reservations E (keys cbs) = Raise e ->
  _update_capacity_blocks_info_from_ec2 E s
  = (Raise e,
     MkSystem (Build (_fleet_config (self s)) cbs
                     (_capacity_blocks_update_time (self s))
                     (_reserved_nodenames (self s)))
              (MkWorld (reservations (world s))
                       (calls (world s)
                        ++ [DescribeCapacityReservations (keys cbs)]))).
Proof.
  intros Hp Hne Hd.
  unfold _update_capacity_blocks_info_from_ec2, bind, gets, of_outcome.
  rewrite Hp. destruct cbs as [|kv cbs]; [congruence|].
  simpl. simpl in Hd. rewrite Hd. reflexivity.
Qed.

(** C3 (as the code has it). When a refresh is due, the configuration gives
    at least one capacity block and [describe_capacity_reservations] raises,
    [get_reserved_nodenames] raises that same error; the time of the last
    refresh and the cached list of reserved nodes are exactly as before, and
    the scheduler has received no call. [_capacity_blocks], however, has
    already been replaced by the capacity blocks just built from the
    configuration, which carry no EC2 info and no node names. *)
Theorem failed_describe_keeps_time_and_reserved :
  forall (E : Env) (nodes : list SlurmNode.t) (s : System)
         (cbs : dict CapacityBlock.t) (e : exn),
    is_time_to_update E (_capacity_blocks_update_time (self s)) = true ->
    _capacity_blocks_from_config (_fleet_config (self s)) = Return cbs ->
    cbs <> [] ->
    describe_capacity_reservations E (keys cbs) = Raise e ->
    get_reserved_nodenames E nodes s
    = (Raise e,
       MkSystem (Build (_fleet_config (self s)) cbs
                       (_capacity_blocks_update_time (self s))
                       (_reserved_nodenames (self s)))
                (MkWorld (reservations (world s))
                         (calls (world s)
                          ++ [DescribeCapacityReservations (keys cbs)]))).
Proof.
  intros E nodes s cbs e Hdue Hp Hne Hd.
  unfold get_reserved_nodenames.
  erewrite bind_Return by reflexivity. rewrite Hdue.
  apply bind_Raise. apply bind_Raise.
  apply update_info_describe_raises; assumption.
Qed.

Lemma failed_describe_keeps_time_and_reserved_witness :
  let fc : fleet_config :=
    [("q1", [("r1", [("CapacityType", "capacity-block");
                     ("CapacityReservationId", "cr-1")])])] in
  let held := CapacityBlock.Build "cr-1" "q1" "r1"
                (Some (CapacityBlockReservationInfo.Build "cr-1" "pending"))
                ["q1-st-r1-1"] in
  let s := MkSystem (Build fc [("cr-1", held)] (Some 1200) ["q1-st-r1-1"])
                    (MkWorld [("pcluster-cr-1", "q1-st-r1-1")] []) in
  let E := MkEnv 2400 (fun _ => Raise (ClientError "RequestLimitExceeded")) in
  get_reserved_nodenames E [SlurmNode.Build "q1-st-r1-1" "q1" "r1"] s
  = (Raise (ClientError "RequestLimitExceeded"),
     MkSystem (Build fc [("cr-1", CapacityBlock.__init__ "cr-1" "q1" "r1")]
                     (Some 1200) ["q1-st-r1-1"])
              (MkWorld [("pcluster-cr-1", "q1-st-r1-1")]
                       [DescribeCapacityReservations ["cr-1"]])).
Proof.
  intros fc held s E.
  apply (failed_describe_keeps_time_and_reserved E
           [SlurmNode.Build "q1-st-r1-1" "q1" "r1"] s
           [("cr-1", CapacityBlock.__init__ "cr-1" "q1" "r1")]
           (ClientError "RequestLimitExceeded")).
  - reflexivity.
  - reflexivity.
  - discriminate.
  - reflexivity.
Defined.

(** C3, as stated, fails. A manager is initialised from EC2, refreshes once
    with success (the capacity block [cr-1] is pending and gets its node),
    and refreshes again while EC2 fails: the error is raised and
    [_capacity_blocks] is not what it was before that refresh started. *)
Lemma failed_describe_overwrites_capacity_blocks :
  let fc : fleet_config :=
    [("q1", [("r1", [("CapacityType", "capacity-block");
                     ("CapacityReservationId", "cr-1")])])] in
  let nodes := [SlurmNode.Build "q1-st-r1-1" "q1" "r1"] in
  let ec2_pending (_ : list string) :=
    Return [CapacityBlockReservationInfo.Build "cr-1" "pending"] in
  let ec2_down (_ : list string) :=
    @Raise (list CapacityBlockReservationInfo.t) (ClientError "RequestLimitExceeded") in
  exists s1 s2 s3 : System,
    _update_capacity_blocks_info_from_ec2 (MkEnv 0 ec2_pending)
      (MkSystem (CapacityBlockManager.__init__ fc) (MkWorld [] []))
    = (Return tt, s1)
    /\ get_reserved_nodenames (MkEnv 1200 ec2_pending) nodes s1
       = (Return ["q1-st-r1-1"], s2)
    /\ get_reserved_nodenames (MkEnv 2400 ec2_down) nodes s2
       = (Raise (ClientError "RequestLimitExceeded"), s3)
    /\ _capacity_blocks (self s2)
       = [("cr-1", CapacityBlock.Build "cr-1" "q1" "r1"
                     (Some (CapacityBlockReservationInfo.Build "cr-1" "pending"))
                     ["q1-st-r1-1"])]
    /\ _capacity_blocks (self s3)
       = [("cr-1", CapacityBlock.Build "cr-1" "q1" "r1" None [])]
    /\ _capacity_blocks (self s3) <> _capacity_blocks (self s2)
    /\ _capacity_blocks_update_time (self s3) = _capacity_blocks_update_time (self s2)
    /\ _reserved_nodenames (self s3) = _reserved_nodenames (self s2).
Proof.
  cbv zeta. eexists. eexists. eexists.
  split; [vm_compute; reflexivity|].
  split; [vm_compute; reflexivity|].
  split; [vm_compute; reflexivity|].
  split; [reflexivity|]. split; [reflexivity|].
  split; [discriminate|]. split; reflexivity.
Qed.

(** ** Which nodes can be reserved *)

Section Soundness.

Variable fc : fleet_config.
Variable nodes : list SlurmNode.t.

Lemma sound_set (d : dict CapacityBlock.t) k v :
  sound fc nodes d -> sound_block fc nodes v -> sound fc nodes (set d k v).
Proof.
  unfold sound. induction 1 as [|[k0 v0] d H0 Hd IH]; simpl; intros Hv.
  - constructor; [exact Hv | constructor].
  - destruct (String.eqb k k0); constructor; auto.
Qed.

Lemma from_queue_sound q qc l :
  In (q, qc) (items fc) -> incl l (items qc) ->
  forall acc d,
    sound fc nodes acc ->
    capacity_blocks_from_queue q l acc = Return d -> sound fc nodes d.
Proof.
  intros Hq. induction l as [|[cr cfg] l IH]; simpl; intros Hincl acc d Hacc H.
  - injection H as <-. exact Hacc.
  - assert (Hl : incl l (items qc)) by (intros x Hx; apply Hincl; right; exact Hx).
    destruct (_is_compute_resource_associated_to_capacity_block cfg) eqn:Hcb;
      [|eapply IH; eassumption].
    destruct (_capacity_reservation_id_from_compute_resource_config cfg) as [id|];
      [|discriminate].
    eapply IH; [exact Hl | | exact H].
    apply sound_set; [exact Hacc|]. split.
    + exists qc, cfg. simpl. repeat split; auto. apply Hincl. left. reflexivity.
    + simpl. contradiction.
Qed.

Lemma from_queues_sound l :
  incl l (items fc) ->
  forall acc d,
    sound fc nodes acc ->
    capacity_blocks_from_queues l acc = Return d -> sound fc nodes d.
Proof.
  induction l as [|[q qc] l IH]; simpl; intros Hincl acc d Hacc H.
  - injection H as <-. exact Hacc.
  - destruct (capacity_blocks_from_queue q (items qc) acc) as [acc'|] eqn:Hq;
      [|discriminate].
    eapply IH; [| |exact H].
    + intros x Hx. apply Hincl. right. exact Hx.
    + eapply from_queue_sound; [| |exact Hacc|exact Hq].
      * apply Hincl. left. reflexivity.
      * apply incl_refl.
Qed.

Lemma from_config_sound d :
  _capacity_blocks_from_config fc = Return d -> sound fc nodes d.
Proof.
  unfold _capacity_blocks_from_config. intros H.
  eapply from_queues_sound; [apply incl_refl | constructor | exact H].
Qed.

Lemma sound_get (d : dict CapacityBlock.t) k v :
  sound fc nodes d -> get d k = Some v -> sound_block fc nodes v.
Proof.
  unfold sound. induction 1 as [|[k0 v0] d H0 Hd IH]; simpl; intros H.
  - discriminate.
  - destruct (String.eqb k k0); [injection H as <-; exact H0 | auto].
Qed.

Lemma store_ec2_info_sound infos : forall s o s',
  store_ec2_info infos s = (o, s') ->
  sound fc nodes (_capacity_blocks (self s)) ->
  sound fc nodes (_capacity_blocks (self s'))
  /\ _fleet_config (self s') = _fleet_config (self s)
  /\ world s' = world s.
Proof.
  induction infos as [|info infos IH]; simpl; intros s o s' H Hs.
  - injection H as _ <-. auto.
  - unfold bind at 1 in H. unfold gets in H.
    destruct (get (_capacity_blocks (self s)) _) as [cb|] eqn:Hget.
    + unfold bind, set_capacity_blocks, modify in H.
      apply IH in H.
      * simpl in H. exact H.
      * simpl. apply sound_set; [exact Hs|].
        exact (sound_get _ _ _ Hs Hget).
    + injection H as _ <-. auto.
Qed.

Lemma associate_node_sound node (d : dict CapacityBlock.t) :
  In node nodes -> sound fc nodes d -> sound fc nodes (associate_node node d).
Proof.
  unfold sound. intros Hin. induction 1 as [|[k cb] d [Hb Hn] Hd IH]; simpl.
  - constructor.
  - destruct (CapacityBlock.does_node_belong_to cb node) eqn:Hbel.
    + constructor; [|exact Hd]. split; [exact Hb|].
      simpl. intros x Hx. apply in_app_or in Hx. destruct Hx as [Hx | [<- | []]].
      * destruct (Hn x Hx) as (n & ? & ? & ?). exists n. auto.
      * exists node. auto.
    + constructor; [split; assumption | exact IH].
Qed.

Lemma associate_nodes_sound l : forall d : dict CapacityBlock.t,
  incl l nodes -> sound fc nodes d ->
  sound fc nodes (fold_left (fun d node => associate_node node d) l d).
Proof.
  induction l as [|n l IH]; simpl; intros d Hincl Hd.
  - exact Hd.
  - apply IH.
    + intros x Hx. apply Hincl. right. exact Hx.
    + apply associate_node_sound; [apply Hincl; left; reflexivity | exact Hd].
Qed.

End Soundness.

Lemma bind_inv_Return {S A B} (c : M S A) (k : A -> M S B) (s s' : S) (b : B) :
  bind c k s = (Return b, s') ->
  exists a s1, c s = (Return a, s1) /\ k a s1 = (Return b, s').
Proof.
  unfold bind. destruct (c s) as [[a|e] s1]; intros H; [|discriminate].
  exists a, s1. split; [reflexivity | exact H].
Qed.

Lemma update_info_sound fc nodes (E : Env) (s s1 : System) :
  _fleet_config (self s) = fc ->
  _update_capacity_blocks_info_from_ec2 E s = (Return tt, s1) ->
  sound fc nodes (_capacity_blocks (self s1)).
Proof.
  intros Hfc H. unfold _update_capacity_blocks_info_from_ec2 in H.
  erewrite bind_Return in H by reflexivity. rewrite Hfc in H.
  apply bind_inv_Return in H. destruct H as (cbs & s0 & Hp & H).
  unfold of_outcome in Hp. injection Hp as Hp <-.
  pose proof (from_config_sound fc nodes cbs Hp) as Hs.
  erewrite bind_Return in H by reflexivity.
  apply bind_inv_Return in H. destruct H as ([] & s2 & H & Htime).
  unfold set_capacity_blocks_update_time, modify in Htime.
  injection Htime as <-. simpl.
  destruct cbs as [|kv cbs].
  - injection H as <-. exact Hs.
  - erewrite bind_Return in H by reflexivity.
    apply bind_inv_Return in H. destruct H as (infos & s3 & Hd & H).
    unfold of_outcome in Hd. injection Hd as _ <-.
    apply (store_ec2_info_sound fc nodes) in H; [apply H | exact Hs].
Qed.

Lemma update_slurm_reservation_result (E : Env) (cb : CapacityBlock.t)
    (w w' : World) (r : list string) :
  _update_slurm_reservation E cb w = (Return r, w') ->
  incl r (CapacityBlock.nodenames cb).
Proof.
  intros H. unfold _update_slurm_reservation in H.
  erewrite bind_Return in H by reflexivity.
  apply bind_inv_Return in H. destruct H as (a & w1 & _ & H).
  destruct a; destruct (contains _ _);
    try (erewrite bind_Return in H by reflexivity);
    injection H as <- _; auto using incl_refl, incl_nil_l.
Qed.

Lemma update_slurm_reservations_result (E : Env) (cbs : list CapacityBlock.t) :
  forall (acc r : list string) (w w' : World),
    update_slurm_reservations E cbs acc w = (Return r, w') ->
    forall x, In x r ->
      In x acc \/ exists cb, In cb cbs /\ In x (CapacityBlock.nodenames cb).
Proof.
  induction cbs as [|cb cbs IH]; simpl; intros acc r w w' H x Hx.
  - injection H as <- _. left. exact Hx.
  - apply bind_inv_Return in H. destruct H as (r1 & w1 & H1 & H).
    destruct (IH _ _ _ _ H x Hx) as [Hacc | (cb' & Hin & Hn)].
    + apply in_app_or in Hacc. destruct Hacc as [Hacc | Hr1]; [left; exact Hacc|].
      right. exists cb. split; [left; reflexivity|].
      exact (update_slurm_reservation_result E cb w w1 r1 H1 x Hr1).
    + right. exists cb'. split; [right; exact Hin | exact Hn].
Qed.

(** A refresh that returns gives the node names returned by the loop over the
    capacity blocks that the refresh from EC2 and the association left. *)
Lemma refresh_inv (E : Env) (nodes : list SlurmNode.t) (s s' : System)
    (l : list string) :
  is_time_to_update E (_capacity_blocks_update_time (self s)) = true ->
  get_reserved_nodenames E nodes s = (Return l, s') ->
  exists (s1 : System) (w3 : World),
    _update_capacity_blocks_info_from_ec2 E s = (Return tt, s1)
    /\ update_slurm_reservations E
         (values (fold_left (fun d node => associate_node node d) nodes
                            (_capacity_blocks (self s1))))
         [] (world s1)
       = (Return l, w3).
Proof.
  intros Hdue H. unfold get_reserved_nodenames in H.
  erewrite bind_Return in H by reflexivity. rewrite Hdue in H.
  apply bind_inv_Return in H. destruct H as ([] & s4 & H & Hl).
  apply bind_inv_Return in H. destruct H as ([] & s1 & H1 & H).
  exists s1. erewrite bind_Return in H by apply associate_run.
  erewrite bind_Return in H by reflexivity.
  apply bind_inv_Return in H. destruct H as (r & s2 & Hloop & H).
  unfold in_world in Hloop. simpl in Hloop.
  destruct (update_slurm_reservations E _ [] (world s1)) as [o w3] eqn:Hrun.
  injection Hloop as -> <-.
  erewrite bind_Return in H by reflexivity.
  rewrite cleanup_leftover_run in H. injection H as <-.
  unfold gets in Hl. simpl in Hl. injection Hl as <- _.
  exists w3. split; [exact H1 | reflexivity].
Qed.

Lemma reserved_nodes_are_backed (E : Env) (nodes : list SlurmNode.t)
    (s s' : System) (l : list string) :
  is_time_to_update E (_capacity_blocks_update_time (self s)) = true ->
  get_reserved_nodenames E nodes s = (Return l, s') ->
  forall x, In x l ->
    exists node, In node nodes /\ SlurmNode.name node = x
      /\ capacity_block_backed (_fleet_config (self s))
           (SlurmNode.queue_name node) (SlurmNode.compute_resource_name node).
Proof.
  intros Hdue H x Hx.
  destruct (refresh_inv E nodes s s' l Hdue H) as (s1 & w3 & H1 & Hloop).
  pose proof (update_info_sound (_fleet_config (self s)) nodes E s s1 eq_refl H1)
    as Hs.
  apply (associate_nodes_sound _ nodes nodes _ (incl_refl nodes)) in Hs.
  destruct (update_slurm_reservations_result E _ _ _ _ _ Hloop x Hx)
    as [[] | (cb & Hcb & Hn)].
  unfold values in Hcb. apply in_map_iff in Hcb. destruct Hcb as ([k cb'] & <- & Hin).
  unfold sound in Hs. rewrite Forall_forall in Hs.
  destruct (Hs _ Hin) as [Hb Hnames]. simpl in *.
  destruct (Hnames x Hn) as (node & Hnode & Hname & Hbel).
  exists node. split; [exact Hnode|]. split; [exact Hname|].
  unfold CapacityBlock.does_node_belong_to in Hbel.
  apply andb_true_iff in Hbel. destruct Hbel as [Hq Hc].
  apply String.eqb_eq in Hq, Hc. rewrite Hq, Hc. exact Hb.
Qed.

Lemma NoDup_map_eq {A B} (f : A -> B) (l : list A) :
  NoDup (map f l) -> forall x y, In x l -> In y l -> f x = f y -> x = y.
Proof.
  induction l as [|a l IH]; simpl; intros Hnd x y Hx Hy Heq; [contradiction|].
  inversion Hnd as [|? ? Hnin Hnd']; subst.
  destruct Hx as [<- | Hx], Hy as [<- | Hy]; auto.
  - exfalso. apply Hnin. rewrite Heq. apply in_map. exact Hy.
  - exfalso. apply Hnin. rewrite <- Heq. apply in_map. exact Hx.
Qed.

Lemma unique_value {V} (d : dict V) (k : string) (v v' : V) :
  NoDup (keys d) -> In (k, v) d -> In (k, v') d -> v = v'.
Proof.
  intros Hnd H H'.
  assert (Heq : (k, v) = (k, v'))
    by (apply (NoDup_map_eq fst d Hnd); auto).
  injection Heq as ->. reflexivity.
Qed.

Lemma not_backed (fc : fleet_config) q qc cr cfg :
  unique_keys fc -> In (q, qc) (items fc) -> In (cr, cfg) (items qc) ->
  _is_compute_resource_associated_to_capacity_block cfg = false ->
  ~ capacity_block_backed fc q cr.
Proof.
  intros [Hfc Hqc] Hq Hcr Hcb (qc' & cfg' & Hq' & Hcr' & Hcb').
  assert (qc' = qc) by (eapply unique_value; eassumption). subst qc'.
  assert (cfg' = cfg) by (eapply unique_value; eauto). subst cfg'.
  congruence.
Qed.

(** ** C10: no capacity type in the configuration *)

(** C10. A compute resource whose configuration has no [CapacityType] is not
    associated to a capacity block: the default is the [ONDEMAND] member and
    the test is false. The projection passes over it, adding no capacity
    block and raising nothing. In a fleet configuration (a [dict], so each
    queue and each compute resource of a queue appears once) where it is the
    compute resource [cr] of queue [q], no capacity block made from the
    configuration has that queue and compute resource, and a refresh over
    nodes with distinct names never returns the name of a node of [q] and
    [cr] among the reserved nodes. *)
Theorem missing_capacity_type_is_not_capacity_block :
  forall cfg : compute_resource_config,
    get cfg "CapacityType" = None ->
    _is_compute_resource_associated_to_capacity_block cfg = false
    /\ (forall q cr rest acc,
           capacity_blocks_from_queue q ((cr, cfg) :: rest) acc
           = capacity_blocks_from_queue q rest acc)
    /\ (forall q cr, _capacity_blocks_from_config [(q, [(cr, cfg)])] = Return [])
    /\ (forall (fc : fleet_config) q qc cr,
           unique_keys fc -> In (q, qc) (items fc) -> In (cr, cfg) (items qc) ->
           (forall cbs k cb,
               _capacity_blocks_from_config fc = Return cbs -> In (k, cb) cbs ->
               ~ (CapacityBlock.queue_name cb = q
                  /\ CapacityBlock.compute_resource_name cb = cr))
           /\ (forall (E : Env) (nodes : list SlurmNode.t) (node : SlurmNode.t)
                      (s s' : System) (l : list string),
                  _fleet_config (self s) = fc ->
                  is_time_to_update E (_capacity_blocks_update_time (self s)) = true ->
                  NoDup (map SlurmNode.name nodes) ->
                  In node nodes ->
                  SlurmNode.queue_name node = q ->
                  SlurmNode.compute_resource_name node = cr ->
                  get_reserved_nodenames E nodes s = (Return l, s') ->
                  ~ In (SlurmNode.name node) l)).
Proof.
  intros cfg Hnone.
  assert (Hcb : _is_compute_resource_associated_to_capacity_block cfg = false).
  { unfold _is_compute_resource_associated_to_capacity_block.
    rewrite Hnone. reflexivity. }
  split; [exact Hcb|]. split; [|split].
  - intros q cr rest acc. simpl. rewrite Hcb. reflexivity.
  - intros q cr. unfold _capacity_blocks_from_config. simpl. rewrite Hcb.
    reflexivity.
  - intros fc q qc cr Hu Hq Hcr.
    pose proof (not_backed fc q qc cr cfg Hu Hq Hcr Hcb) as Hnb.
    split.
    + intros cbs k cb Hp Hin [Hq' Hcr'].
      pose proof (from_config_sound fc [] cbs Hp) as Hs.
      unfold sound in Hs. rewrite Forall_forall in Hs.
      destruct (Hs _ Hin) as [Hb _]. simpl in Hb.
      rewrite Hq', Hcr' in Hb. exact (Hnb Hb).
    + intros E nodes node s s' l Hfc Hdue Hnd Hnode Hnq Hncr Hrun Hin.
      destruct (reserved_nodes_are_backed E nodes s s' l Hdue Hrun _ Hin)
        as (node' & Hnode' & Hname & Hb).
      assert (node' = node)
        by (apply (NoDup_map_eq SlurmNode.name nodes Hnd); assumption).
      subst node'. rewrite Hfc, Hnq, Hncr in Hb. exact (Hnb Hb).
Qed.

Lemma missing_capacity_type_is_not_capacity_block_witness :
  let cfg : compute_resource_config := [("Api", "create-fleet")] in
  let qc : queue_config :=
    [("r1", [("CapacityType", "capacity-block"); ("CapacityReservationId", "cr-1")]);
     ("r2", cfg)] in
  let fc : fleet_config := [("q1", qc)] in
  let nodes := [SlurmNode.Build "q1-st-r1-1" "q1" "r1";
                SlurmNode.Build "q1-st-r2-1" "q1" "r2"] in
  let E := MkEnv 1200
             (fun _ => Return [CapacityBlockReservationInfo.Build "cr-1" "pending"]) in
  let s := MkSystem (Build fc [] (Some 0) []) (MkWorld [] []) in
  _is_compute_resource_associated_to_capacity_block cfg = false
  /\ fst (get_reserved_nodenames E nodes s) = Return ["q1-st-r1-1"]
  /\ ~ In "q1-st-r2-1" ["q1-st-r1-1"].
Proof.
  intros cfg qc fc nodes E s.
  destruct (missing_capacity_type_is_not_capacity_block cfg eq_refl)
    as (Hcb & _ & _ & Hfleet).
  split; [exact Hcb|]. split; [reflexivity|].
  assert (Hu : unique_keys fc).
  { split.
    - simpl. repeat constructor; simpl; intuition discriminate.
    - intros q' qc' [Heq | []]. injection Heq as <- <-.
      simpl. repeat constructor; simpl; intuition discriminate. }
  destruct (Hfleet fc "q1" qc "r2" Hu (or_introl eq_refl)
                   (or_intror (or_introl eq_refl))) as [_ Hnodes].
  apply (Hnodes E nodes (SlurmNode.Build "q1-st-r2-1" "q1" "r2") s
                (snd (get_reserved_nodenames E nodes s)) ["q1-st-r1-1"]).
  - reflexivity.
  - reflexivity.
  - simpl. repeat constructor; simpl; intuition discriminate.
  - right. left. reflexivity.
  - reflexivity.
  - reflexivity.
  - vm_compute. reflexivity.
Defined.

(** * Further properties of the module *)

(** ** Names, equality and the cached list *)

(** X1. The reservation name made for a capacity block is recognised as a
    capacity block reservation, so the sweep's test on it only asks whether
    the block's id is still a key: the block's own reservation is a leftover
    exactly when its id is not among the current ids. *)
Theorem own_reservation_leftover_iff_id_gone :
  forall (cb : CapacityBlock.t) (ids : list string),
    CapacityBlock.is_capacity_block_slurm_reservation
      (CapacityBlock.slurm_reservation_name cb) = true
    /\ (is_leftover ids (CapacityBlock.slurm_reservation_name cb) = true
        <-> ~ In (CapacityBlock.capacity_block_id cb) ids).
Proof.
  intros cb ids.
  assert (Hp : CapacityBlock.is_capacity_block_slurm_reservation
                 (CapacityBlock.slurm_reservation_name cb) = true).
  { unfold CapacityBlock.is_capacity_block_slurm_reservation,
      CapacityBlock.slurm_reservation_name. apply startswith_app. }
  split; [exact Hp|].
  rewrite is_leftover_iff.
  unfold CapacityBlock.slurm_reservation_name_to_id,
    CapacityBlock.slurm_reservation_name at 2.
  rewrite slice_from_app. tauto.
Qed.

Lemma own_reservation_leftover_iff_id_gone_witness :
  is_leftover ["cr-2"; "cr-3"]
    (CapacityBlock.slurm_reservation_name (CapacityBlock.__init__ "cr-1" "q1" "r1"))
  = true.
Proof.
  apply (proj2 (own_reservation_leftover_iff_id_gone
                  (CapacityBlock.__init__ "cr-1" "q1" "r1") ["cr-2"; "cr-3"])).
  simpl. intuition discriminate.
Defined.




(** X3. When no refresh is due, [get_reserved_nodenames] returns the cached
    list of reserved nodes, whatever nodes it is given; it issues no call to
    EC2 or to the scheduler and leaves the manager as it was. *)
Theorem not_due_returns_cached :
  forall (E : Env) (nodes : list SlurmNode.t) (s : System),
    is_time_to_update E (_capacity_blocks_update_time (self s)) = false ->
    get_reserved_nodenames E nodes s
    = (Return (_reserved_nodenames (self s)), s).
Proof.
  intros E nodes s Hdue. unfold get_reserved_nodenames.
  erewrite bind_Return by reflexivity. rewrite Hdue.
  erewrite bind_Return by reflexivity. reflexivity.
Qed.

Lemma not_due_returns_cached_witness :
  let s := MkSystem
             (Build [] [("cr-1", CapacityBlock.__init__ "cr-1" "q1" "r1")]
                    (Some 1000) ["q1-st-r1-1"])
             (MkWorld [("pcluster-cr-1", "q1-st-r1-1")] []) in
  get_reserved_nodenames (MkEnv 1600 (fun _ => Raise (ClientError "down")))
                         [SlurmNode.Build "q1-st-r1-2" "q1" "r1"] s
  = (Return ["q1-st-r1-1"], s).
Proof.
  intros s.
  apply (not_due_returns_cached (MkEnv 1600 (fun _ => Raise (ClientError "down")))
           [SlurmNode.Build "q1-st-r1-2" "q1" "r1"] s).
  reflexivity.
Defined.

(** ** The projection, when it returns *)

Lemma in_set {V} (d : dict V) (k k' : string) (v v' : V) :
  In (k', v') (set d k v) -> (k', v') = (k, v) \/ In (k', v') d.
Proof.
  induction d as [|[k0 v0] d IH]; simpl.
  - intros [H | []]. left. symmetry. exact H.
  - destruct (String.eqb k k0) eqn:Hk; simpl.
    + apply String.eqb_eq in Hk. subst k0.
      intros [H | H]; [left; symmetry; exact H | right; right; exact H].
    + intros [H | H]; [right; left; exact H|].
      destruct (IH H) as [H' | H']; [left; exact H' | right; right; exact H'].
Qed.

Lemma keys_set {V} (d : dict V) (k : string) (v : V) :
  keys (set d k v) = if contains d k then keys d else keys d ++ [k].
Proof.
  unfold contains, keys. induction d as [|[k0 v0] d IH]; simpl.
  - reflexivity.
  - destruct (String.eqb k k0) eqn:Hk; simpl.
    + apply String.eqb_eq in Hk. subst k0. reflexivity.
    + rewrite IH. destruct (get d k); reflexivity.
Qed.

Lemma contains_keys {V} (d : dict V) (k : string) :
  contains d k = true <-> In k (keys d).
Proof.
  unfold contains, keys. induction d as [|[k0 v0] d IH]; simpl.
  - split; [discriminate | contradiction].
  - destruct (String.eqb k k0) eqn:Hk.
    + apply String.eqb_eq in Hk. subst k0. split; auto.
    + rewrite IH. apply String.eqb_neq in Hk. split; [auto|].
      intros [H | H]; [congruence | exact H].
Qed.

Lemma keys_set_in {V} (d : dict V) (k k' : string) (v : V) :
  In k' (keys (set d k v)) <-> k' = k \/ In k' (keys d).
Proof.
  rewrite keys_set. destruct (contains d k) eqn:Hc.
  - apply contains_keys in Hc. split; [auto|]. intros [-> | H]; assumption.
  - rewrite in_app_iff. simpl. split.
    + intros [H | [H | []]]; auto.
    + intros [-> | H]; auto.
Qed.

Lemma NoDup_keys_set {V} (d : dict V) (k : string) (v : V) :
  NoDup (keys d) -> NoDup (keys (set d k v)).
Proof.
  intros Hnd. rewrite keys_set. destruct (contains d k) eqn:Hc; [exact Hnd|].
  apply NoDup_app; [exact Hnd | repeat constructor; intros [] |].
  intros x Hx [<- | []]. apply contains_keys in Hx. congruence.
Qed.

Section Projection.

Variable fc : fleet_config.

Lemma projected_set d k q cr :
  projected fc d -> declares fc q cr k ->
  projected fc (set d k (CapacityBlock.__init__ k q cr)).
Proof.
  intros [Hnd Hd] Hdecl. split; [apply NoDup_keys_set; exact Hnd|].
  intros k' cb Hin. apply in_set in Hin. destruct Hin as [Heq | Hin]; [|auto].
  injection Heq as -> ->. exists q, cr. auto.
Qed.

Lemma from_queue_projected q qc l :
  In (q, qc) (items fc) -> incl l (items qc) ->
  forall acc d,
    projected fc acc ->
    capacity_blocks_from_queue q l acc = Return d ->
    projected fc d
    /\ (forall k, In k (keys acc) -> In k (keys d))
    /\ (forall cr cfg k,
           In (cr, cfg) l ->
           _is_compute_resource_associated_to_capacity_block cfg = true ->
           get cfg "CapacityReservationId" = Some k -> In k (keys d)).
Proof.
  intros Hq. induction l as [|[cr cfg] l IH]; simpl; intros Hincl acc d Hacc H.
  - injection H as <-. split; [exact Hacc|]. split; [auto|]. contradiction.
  - assert (Hl : incl l (items qc)) by (intros x Hx; apply Hincl; right; exact Hx).
    destruct (_is_compute_resource_associated_to_capacity_block cfg) eqn:Hcb.
    + unfold _capacity_reservation_id_from_compute_resource_config in H.
      destruct (get cfg "CapacityReservationId") as [id|] eqn:Hid; [|discriminate].
      assert (Hdecl : declares fc q cr id).
      { exists qc, cfg. repeat split; auto. apply Hincl. left. reflexivity. }
      destruct (IH Hl _ _ (projected_set _ _ _ _ Hacc Hdecl) H) as (Hd & Hmono & Hnew).
      split; [exact Hd|]. split.
      * intros k Hk. apply Hmono. apply keys_set_in. right. exact Hk.
      * intros cr' cfg' k [Heq | Hin] Hcb' Hid'.
        -- injection Heq as <- <-. apply Hmono. apply keys_set_in. left. congruence.
        -- eapply Hnew; eassumption.
    + destruct (IH Hl _ _ Hacc H) as (Hd & Hmono & Hnew).
      split; [exact Hd|]. split; [exact Hmono|].
      intros cr' cfg' k [Heq | Hin] Hcb' Hid'.
      * injection Heq as <- <-. congruence.
      * eapply Hnew; eassumption.
Qed.

Lemma from_queues_projected l :
  incl l (items fc) ->
  forall acc d,
    projected fc acc ->
    capacity_blocks_from_queues l acc = Return d ->
    projected fc d
    /\ (forall k, In k (keys acc) -> In k (keys d))
    /\ (forall q qc cr cfg k,
           In (q, qc) l -> In (cr, cfg) (items qc) ->
           _is_compute_resource_associated_to_capacity_block cfg = true ->
           get cfg "CapacityReservationId" = Some k -> In k (keys d)).
Proof.
  induction l as [|[q qc] l IH]; simpl; intros Hincl acc d Hacc H.
  - injection H as <-. split; [exact Hacc|]. split; [auto|]. contradiction.
  - destruct (capacity_blocks_from_queue q (items qc) acc) as [acc'|] eqn:Hq;
      [|discriminate].
    assert (Hin : In (q, qc) (items fc)) by (apply Hincl; left; reflexivity).
    destruct (from_queue_projected q qc _ Hin (incl_refl _) _ _ Hacc Hq)
      as (Hacc' & Hmono' & Hnew').
    assert (Hl : incl l (items fc)) by (intros x Hx; apply Hincl; right; exact Hx).
    destruct (IH Hl _ _ Hacc' H) as (Hd & Hmono & Hnew).
    split; [exact Hd|]. split; [auto|].
    intros q' qc' cr cfg k [Heq | Hin'] Hcr Hcb Hid.
    + injection Heq as <- <-. apply Hmono. eapply Hnew'; eassumption.
    + eapply Hnew; eassumption.
Qed.

Lemma from_config_projected d :
  _capacity_blocks_from_config fc = Return d ->
  projected fc d /\ forall q cr k, declares fc q cr k -> In k (keys d).
Proof.
  unfold _capacity_blocks_from_config. intros H.
  assert (Hnil : projected fc []).
  { split; [constructor | intros ? ? []]. }
  destruct (from_queues_projected _ (incl_refl _) _ _ Hnil H) as (Hd & _ & Hnew).
  split; [exact Hd|].
  intros q cr k (qc & cfg & Hq & Hcr & Hcb & Hid). eapply Hnew; eassumption.
Qed.

End Projection.

(** X4. When [_capacity_blocks_from_config] returns, the dict has each id
    once; under an id is a capacity block just built ([__init__]: that id, no
    EC2 info, no node name) for a queue and compute resource that declare
    this id as a capacity block; and every id declared by a capacity block
    compute resource is a key. *)
Theorem projection_returns_declared_blocks :
  forall (fc : fleet_config) (d : dict CapacityBlock.t),
    _capacity_blocks_from_config fc = Return d ->
    NoDup (keys d)
    /\ (forall k cb, In (k, cb) d ->
          exists q cr, cb = CapacityBlock.__init__ k q cr /\ declares fc q cr k)
    /\ (forall q cr k, declares fc q cr k -> In k (keys d)).
Proof.
  intros fc d H. destruct (from_config_projected fc d H) as [[Hnd Hd] Hk].
  auto.
Qed.

Lemma projection_returns_declared_blocks_witness :
  let fc : fleet_config :=
    [("q1", [("r1", [("CapacityType", "capacity-block");
                     ("CapacityReservationId", "cr-1")]);
             ("r2", [("CapacityType", "spot")])]);
     ("q2", [("r1", [("CapacityType", "capacity-block");
                     ("CapacityReservationId", "cr-2")])])] in
  let d := [("cr-1", CapacityBlock.__init__ "cr-1" "q1" "r1");
            ("cr-2", CapacityBlock.__init__ "cr-2" "q2" "r1")] in
  _capacity_blocks_from_config fc = Return d
  /\ NoDup (keys d)
  /\ (forall q cr k, declares fc q cr k -> In k (keys d)).
Proof.
  intros fc d.
  destruct (projection_returns_declared_blocks fc d eq_refl) as (Hnd & _ & Hk).
  split; [reflexivity|]. split; assumption.
Defined.

Lemma from_queue_returns q l :
  (forall cr cfg, In (cr, cfg) l ->
     _is_compute_resource_associated_to_capacity_block cfg = true ->
     get cfg "CapacityReservationId" <> None) ->
  forall acc, exists d, capacity_blocks_from_queue q l acc = Return d.
Proof.
  induction l as [|[cr cfg] l IH]; simpl; intros H acc.
  - exists acc. reflexivity.
  - assert (Hl : forall cr' cfg', In (cr', cfg') l ->
               _is_compute_resource_associated_to_capacity_block cfg' = true ->
               get cfg' "CapacityReservationId" <> None)
      by (intros cr' cfg' Hin; apply (H cr' cfg'); right; exact Hin).
    destruct (_is_compute_resource_associated_to_capacity_block cfg) eqn:Hcb;
      [|apply IH; exact Hl].
    unfold _capacity_reservation_id_from_compute_resource_config.
    destruct (get cfg "CapacityReservationId") as [id|] eqn:Hid.
    + apply IH. exact Hl.
    + exfalso. apply (H cr cfg (or_introl eq_refl) Hcb Hid).
Qed.

Lemma from_queues_returns l :
  (forall q qc cr cfg, In (q, qc) l -> In (cr, cfg) (items qc) ->
     _is_compute_resource_associated_to_capacity_block cfg = true ->
     get cfg "CapacityReservationId" <> None) ->
  forall acc, exists d, capacity_blocks_from_queues l acc = Return d.
Proof.
  induction l as [|[q qc] l IH]; simpl; intros H acc.
  - exists acc. reflexivity.
  - destruct (from_queue_returns q (items qc)
                (fun cr cfg => H q qc cr cfg (or_introl eq_refl)) acc)
      as [acc' ->].
    apply IH. intros q' qc' cr cfg Hin. apply (H q' qc' cr cfg). right. exact Hin.
Qed.

Lemma from_queues_raises_missing_id l : forall acc e,
  capacity_blocks_from_queues l acc = Raise e -> e = missing_id.
Proof.
  induction l as [|[q qc] l IH]; simpl; intros acc e H.
  - discriminate.
  - destruct (capacity_blocks_from_queue q (items qc) acc) eqn:Hq.
    + eapply IH; eassumption.
    + injection H as <-. eapply from_queue_raises_missing_id; eassumption.
Qed.

(** X5. [_capacity_blocks_from_config] returns a dict exactly when every
    compute resource that is a capacity block has a [CapacityReservationId];
    the only exception it can raise is the [KeyError] of that key. Compute
    resources of another capacity type need no reservation id. *)
Theorem projection_returns_iff_ids_present :
  forall fc : fleet_config,
    ((exists d, _capacity_blocks_from_config fc = Return d) <-> ids_present fc)
    /\ forall e, _capacity_blocks_from_config fc = Raise e ->
                 e = KeyError "CapacityReservationId".
Proof.
  intros fc. split; [split|].
  - intros [d Hd] q qc cr cfg Hq Hcr Hcb Hid.
    unfold _capacity_blocks_from_config in Hd.
    rewrite (from_queues_missing_id _ q qc cr cfg [] Hq Hcr Hcb Hid) in Hd.
    discriminate.
  - intros Hids. unfold _capacity_blocks_from_config.
    apply from_queues_returns. exact Hids.
  - intros e He. exact (from_queues_raises_missing_id _ _ _ He).
Qed.

Lemma projection_returns_iff_ids_present_witness :
  let fc : fleet_config :=
    [("q1", [("r1", [("CapacityType", "capacity-block");
                     ("CapacityReservationId", "cr-1")]);
             ("r2", [("CapacityType", "on-demand")])])] in
  exists d, _capacity_blocks_from_config fc = Return d.
Proof.
  intros fc. apply (proj1 (projection_returns_iff_ids_present fc)).
  intros q qc cr cfg [Hq | []] Hcr Hcb. injection Hq as <- <-.
  destruct Hcr as [Hcr | [Hcr | []]]; injection Hcr as <- <-.
  - discriminate.
  - discriminate.
Defined.

(** ** Two compute resources with one id *)

Lemma from_queue_app q l1 l2 : forall acc,
  capacity_blocks_from_queue q (l1 ++ l2) acc
  = match capacity_blocks_from_queue q l1 acc with
    | Return d => capacity_blocks_from_queue q l2 d
    | Raise e => Raise e
    end.
Proof.
  induction l1 as [|[cr cfg] l1 IH]; simpl; intros acc.
  - reflexivity.
  - destruct (_is_compute_resource_associated_to_capacity_block cfg); [|apply IH].
    destruct (_capacity_reservation_id_from_compute_resource_config cfg);
      [apply IH | reflexivity].
Qed.

Lemma from_queues_app l1 l2 : forall acc,
  capacity_blocks_from_queues (l1 ++ l2) acc
  = match capacity_blocks_from_queues l1 acc with
    | Return d => capacity_blocks_from_queues l2 d
    | Raise e => Raise e
    end.
Proof.
  induction l1 as [|[q qc] l1 IH]; simpl; intros acc.
  - reflexivity.
  - destruct (capacity_blocks_from_queue q (items qc) acc); [apply IH | reflexivity].
Qed.

Lemma from_queue_get_other q l k :
  (forall cr cfg, In (cr, cfg) l ->
     _is_compute_resource_associated_to_capacity_block cfg = true ->
     get cfg "CapacityReservationId" <> Some k) ->
  forall acc d,
    capacity_blocks_from_queue q l acc = Return d -> get d k = get acc k.
Proof.
  induction l as [|[cr cfg] l IH]; simpl; intros H acc d Hd.
  - injection Hd as <-. reflexivity.
  - assert (Hl : forall cr' cfg', In (cr', cfg') l ->
               _is_compute_resource_associated_to_capacity_block cfg' = true ->
               get cfg' "CapacityReservationId" <> Some k)
      by (intros cr' cfg' Hin; apply (H cr' cfg'); right; exact Hin).
    destruct (_is_compute_resource_associated_to_capacity_block cfg) eqn:Hcb;
      [|apply (IH Hl _ _ Hd)].
    unfold _capacity_reservation_id_from_compute_resource_config in Hd.
    destruct (get cfg "CapacityReservationId") as [id|] eqn:Hid; [|discriminate].
    rewrite (IH Hl _ _ Hd), get_set.
    destruct (String.eqb k id) eqn:Hk; [|reflexivity].
    apply String.eqb_eq in Hk. subst id.
    exfalso. exact (H cr cfg (or_introl eq_refl) Hcb Hid).
Qed.

Lemma from_queues_get_other l k :
  (forall q qc cr cfg, In (q, qc) l -> In (cr, cfg) (items qc) ->
     _is_compute_resource_associated_to_capacity_block cfg = true ->
     get cfg "CapacityReservationId" <> Some k) ->
  forall acc d,
    capacity_blocks_from_queues l acc = Return d -> get d k = get acc k.
Proof.
  induction l as [|[q qc] l IH]; simpl; intros H acc d Hd.
  - injection Hd as <-. reflexivity.
  - destruct (capacity_blocks_from_queue q (items qc) acc) as [acc'|] eqn:Hq;
      [|discriminate].
    rewrite (IH (fun q' qc' cr cfg Hin => H q' qc' cr cfg (or_intror Hin)) _ _ Hd).
    apply (from_queue_get_other q (items qc) k); [|exact Hq].
    intros cr cfg. apply (H q qc cr cfg). left. reflexivity.
Qed.

(** X6. When several compute resources declare the same capacity block id,
    the last one in the order of the configuration wins: if no capacity
    block compute resource after [cr] of queue [q] declares the id [k], the
    capacity block stored under [k] is the one built for [q] and [cr]. *)
Theorem projection_last_declaration_wins :
  forall (fc1 fc2 : fleet_config) (q : string) (qc1 qc2 : queue_config)
         (cr : string) (cfg : compute_resource_config) (k : string)
         (d : dict CapacityBlock.t),
    _is_compute_resource_associated_to_capacity_block cfg = true ->
    get cfg "CapacityReservationId" = Some k ->
    (forall cr' cfg', In (cr', cfg') qc2 ->
       _is_compute_resource_associated_to_capacity_block cfg' = true ->
       get cfg' "CapacityReservationId" <> Some k) ->
    (forall q' qc' cr' cfg', In (q', qc') fc2 -> In (cr', cfg') (items qc') ->
       _is_compute_resource_associated_to_capacity_block cfg' = true ->
       get cfg' "CapacityReservationId" <> Some k) ->
    _capacity_blocks_from_config (fc1 ++ (q, qc1 ++ (cr, cfg) :: qc2) :: fc2)
    = Return d ->
    get d k = Some (CapacityBlock.__init__ k q cr).
Proof.
  intros fc1 fc2 q qc1 qc2 cr cfg k d Hcb Hid Hqc2 Hfc2 H.
  unfold _capacity_blocks_from_config, items in H.
  rewrite from_queues_app in H.
  destruct (capacity_blocks_from_queues fc1 []) as [d1|]; [|discriminate].
  simpl in H. unfold items in H. rewrite from_queue_app in H.
  destruct (capacity_blocks_from_queue q qc1 d1) as [d2|]; [|discriminate].
  simpl in H. rewrite Hcb in H.
  unfold _capacity_reservation_id_from_compute_resource_config in H.
  rewrite Hid in H.
  destruct (capacity_blocks_from_queue q qc2 _) as [d3|] eqn:H3; [|discriminate].
  rewrite (from_queues_get_other fc2 k Hfc2 _ _ H).
  rewrite (from_queue_get_other q qc2 k Hqc2 _ _ H3).
  rewrite get_set, String.eqb_refl. reflexivity.
Qed.

Lemma projection_last_declaration_wins_witness :
  let block id := [("CapacityType", "capacity-block"); ("CapacityReservationId", id)] in
  let fc : fleet_config :=
    [("q1", [("r1", block "cr-1"); ("r2", block "cr-2")]);
     ("q2", [("r1", block "cr-1"); ("r2", [("CapacityType", "spot")])])] in
  _capacity_blocks_from_config fc
  = Return [("cr-1", CapacityBlock.__init__ "cr-1" "q2" "r1");
            ("cr-2", CapacityBlock.__init__ "cr-2" "q1" "r2")]
  /\ get [("cr-1", CapacityBlock.__init__ "cr-1" "q2" "r1");
          ("cr-2", CapacityBlock.__init__ "cr-2" "q1" "r2")] "cr-1"
     = Some (CapacityBlock.__init__ "cr-1" "q2" "r1").
Proof.
  intros block fc. split; [reflexivity|].
  apply (projection_last_declaration_wins
           [("q1", [("r1", block "cr-1"); ("r2", block "cr-2")])] []
           "q2" [] [("r2", [("CapacityType", "spot")])] "r1" (block "cr-1") "cr-1").
  - reflexivity.
  - reflexivity.
  - intros cr' cfg' [Heq | []]. injection Heq as <- <-. discriminate.
  - intros q' qc' cr' cfg' [].
  - reflexivity.
Defined.

(** ** The association of nodes *)

Lemma nodenames_add_nodenames (cb : CapacityBlock.t) (l : list string) :
  CapacityBlock.nodenames (add_nodenames cb l) = CapacityBlock.nodenames cb ++ l.
Proof.
  unfold add_nodenames. revert cb.
  induction l as [|x l IH]; intros cb; simpl.
  - rewrite app_nil_r. reflexivity.
  - rewrite IH. simpl. rewrite <- app_assoc. reflexivity.
Qed.

Lemma bound_associate_node (d : dict CapacityBlock.t) (node : SlurmNode.t) :
  forall nodes, bound nodes (associate_node node d) = bound (node :: nodes) d.
Proof.
  induction d as [|[k cb] d IH]; intros nodes; simpl.
  - reflexivity.
  - destruct (CapacityBlock.does_node_belong_to cb node) eqn:Hb; simpl.
    + reflexivity.
    + rewrite IH. reflexivity.
Qed.

Lemma associate_nodes_bound (nodes : list SlurmNode.t) :
  forall d : dict CapacityBlock.t,
    fold_left (fun d node => associate_node node d) nodes d = bound nodes d.
Proof.
  induction nodes as [|node nodes IH]; intros d; simpl.
  - induction d as [|[k cb] d IHd]; simpl; [|rewrite <- IHd]; reflexivity.
  - rewrite IH. apply bound_associate_node.
Qed.

Lemma keys_bound (nodes : list SlurmNode.t) (d : dict CapacityBlock.t) :
  keys (bound nodes d) = keys d.
Proof.
  revert nodes. induction d as [|[k cb] d IH]; intros nodes; simpl.
  - reflexivity.
  - f_equal. apply IH.
Qed.

(** X7. [_associate_nodenames_to_capacity_blocks] shares the nodes out among
    the capacity blocks in the order of the dict: the first capacity block
    gets, after the names it already has, the names of all the nodes of its
    queue and compute resource, in the order of the list; the nodes that are
    left go to the capacity blocks after it in the same way. The keys and
    their order are unchanged, and nothing else of the manager or the world
    changes. *)
Theorem association_shares_nodes_in_dict_order :
  forall (nodes : list SlurmNode.t) (s : System),
    _associate_nodenames_to_capacity_blocks nodes s
    = (Return tt,
       MkSystem (Build (_fleet_config (self s))
                       (bound nodes (_capacity_blocks (self s)))
                       (_capacity_blocks_update_time (self s))
                       (_reserved_nodenames (self s)))
                (world s))
    /\ keys (bound nodes (_capacity_blocks (self s)))
       = keys (_capacity_blocks (self s))
    /\ forall cb l,
        CapacityBlock.nodenames (add_nodenames cb l)
        = CapacityBlock.nodenames cb ++ l.
Proof.
  intros nodes s. split; [|split].
  - rewrite associate_run, associate_nodes_bound. reflexivity.
  - apply keys_bound.
  - apply nodenames_add_nodenames.
Qed.

Lemma length_filter_split {A} (f g : A -> bool) (l : list A) :
  length (filter (fun x => f x || g x) l)
  = (length (filter f l)
     + length (filter g (filter (fun x => negb (f x)) l)))%nat.
Proof.
  induction l as [|x l IH]; simpl; [reflexivity|].
  destruct (f x); simpl.
  - rewrite IH. reflexivity.
  - destruct (g x); simpl; rewrite IH; [rewrite Nat.add_succ_r|]; reflexivity.
Qed.

Lemma nodenames_count_bound (d : dict CapacityBlock.t) :
  forall nodes,
    nodenames_count (bound nodes d)
    = (nodenames_count d
       + length (filter (belongs_to_some (values d)) nodes))%nat.
Proof.
  unfold nodenames_count.
  induction d as [|[k cb] d IH]; intros nodes; simpl.
  - clear. induction nodes; simpl; auto.
  - rewrite !length_app, nodenames_add_nodenames, length_app, length_map, IH.
    change (belongs_to_some (cb :: values d))
      with (fun node => CapacityBlock.does_node_belong_to cb node
                        || belongs_to_some (values d) node).
    rewrite (length_filter_split (CapacityBlock.does_node_belong_to cb)
               (belongs_to_some (values d))).
    rewrite <- !Nat.add_assoc. f_equal.
    rewrite !Nat.add_assoc.
    rewrite (Nat.add_comm (length (filter _ nodes))). reflexivity.
Qed.

(** X8. A node is associated to at most one capacity block, and to one when
    it belongs to any: after the association the capacity blocks hold as many
    more node names as there are nodes, in the list, that belong to some
    capacity block. Nodes that belong to none are passed over. *)
Theorem association_adds_one_name_per_matching_node :
  forall (nodes : list SlurmNode.t) (d : dict CapacityBlock.t),
    nodenames_count (fold_left (fun d node => associate_node node d) nodes d)
    = (nodenames_count d
       + length (filter (belongs_to_some (values d)) nodes))%nat.
Proof.
  intros nodes d. rewrite associate_nodes_bound. apply nodenames_count_bound.
Qed.

(** ** The reconciliation of capacity blocks that are not active *)

Lemma state_inactive_is_active (cb : CapacityBlock.t) (st : string) :
  CapacityBlock.state cb = Return st -> st <> "active"%string ->
  CapacityBlock.is_active cb = Return false.
Proof.
  unfold CapacityBlock.is_active. intros -> Hne.
  apply String.eqb_neq in Hne. rewrite Hne. reflexivity.
Qed.

(** X9. For a capacity block whose state is anything but ["active"]
    (pending, expired, ...), [_update_slurm_reservation] returns the block's
    node names. After the existence query it issues one call: an [update]
    when the reservation exists, a [create] starting now when it does not,
    both with the comma-separated node names; the reservation then holds
    these names, and every other reservation is as it was. *)
Theorem inactive_block_reserves_nodes :
  forall (E : Env) (cb : CapacityBlock.t) (w : World) (st : string),
    CapacityBlock.state cb = Return st -> st <> "active"%string ->
    let name := CapacityBlock.slurm_reservation_name cb in
    let nodes := join "," (CapacityBlock.nodenames cb) in
    exists w' : World,
      _update_slurm_reservation E cb w = (Return (CapacityBlock.nodenames cb), w')
      /\ calls w'
         = calls w
           ++ [DoesSlurmReservationExist name;
               if contains (reservations w) name
               then UpdateSlurmReservation name nodes
               else CreateSlurmReservation name (now E) nodes]
      /\ get (reservations w') name = Some nodes
      /\ forall other, other <> name ->
           get (reservations w') other = get (reservations w) other.
Proof.
  intros E cb w st Hst Hne name nodes.
  pose proof (update_slurm_reservation_inactive E cb w
                (state_inactive_is_active cb st Hst Hne)) as H.
  cbv zeta in H. fold name in H. fold nodes in H.
  eexists. split; [exact H|]. simpl.
  split; [reflexivity|]. split.
  - rewrite get_set, String.eqb_refl. reflexivity.
  - intros other Ho. rewrite get_set.
    apply String.eqb_neq in Ho. rewrite Ho. reflexivity.
Qed.

Lemma inactive_block_reserves_nodes_witness :
  let cb := CapacityBlock.Build "cr-1" "q1" "r1"
              (Some (CapacityBlockReservationInfo.Build "cr-1" "payment-pending"))
              ["q1-st-r1-1"; "q1-st-r1-2"] in
  let w := MkWorld [("maintenance", "n1")] [] in
  exists w' : World,
    _update_slurm_reservation (MkEnv 100 (fun _ => Return [])) cb w
    = (Return ["q1-st-r1-1"; "q1-st-r1-2"], w')
    /\ calls w'
       = [DoesSlurmReservationExist "pcluster-cr-1";
          CreateSlurmReservation "pcluster-cr-1" 100 "q1-st-r1-1,q1-st-r1-2"]
    /\ get (reservations w') "pcluster-cr-1" = Some "q1-st-r1-1,q1-st-r1-2"
    /\ get (reservations w') "maintenance" = Some "n1".
Proof.
  intros cb w.
  destruct (inactive_block_reserves_nodes (MkEnv 100 (fun _ => Return [])) cb w
              "payment-pending" eq_refl)
    as (w' & Hrun & Hcalls & Hown & Hother).
  - discriminate.
  - exists w'. split; [exact Hrun|]. split; [exact Hcalls|].
    split; [exact Hown|]. rewrite Hother; [reflexivity | discriminate].
Defined.

Lemma reconciled_get_other (cb : CapacityBlock.t) (d : dict string) (n : string) :
  n <> CapacityBlock.slurm_reservation_name cb ->
  get (reconciled cb d) n = get d n.
Proof.
  intros Hne. apply String.eqb_neq in Hne. unfold reconciled.
  destruct (is_withheld cb).
  - rewrite get_set, Hne. reflexivity.
  - rewrite get_remove, Hne. reflexivity.
Qed.

Lemma reconciling_calls_target (E : Env) (cb : CapacityBlock.t) (d : dict string) :
  Forall (fun c => call_target c
                   = Some (CapacityBlock.slurm_reservation_name cb))
         (reconciling_calls E cb d).
Proof.
  unfold reconciling_calls.
  destruct (is_withheld cb); destruct (contains d _); repeat constructor.
Qed.

(** X10. Whatever its outcome, [_update_slurm_reservation] starts with the
    existence query for the block's own reservation, and any call after it
    creates, updates or deletes that reservation and no other: the
    reservations under other names are as they were. *)
Theorem reconciliation_touches_own_reservation_only :
  forall (E : Env) (cb : CapacityBlock.t) (w w' : World)
         (o : outcome (list string)),
    _update_slurm_reservation E cb w = (o, w') ->
    let name := CapacityBlock.slurm_reservation_name cb in
    (exists cs : list call,
        calls w' = calls w ++ DoesSlurmReservationExist name :: cs
        /\ Forall (fun c => call_target c = Some name) cs)
    /\ forall other, other <> name ->
         get (reservations w') other = get (reservations w) other.
Proof.
  intros E cb w w' o H name.
  destruct (CapacityBlock._capacity_block_reservation_info cb) as [info|] eqn:Hi.
  - assert (Hinfo : has_ec2_info cb) by (unfold has_ec2_info; congruence).
    rewrite (update_slurm_reservation_spec E cb w Hinfo) in H.
    injection H as _ <-. simpl. split.
    + eexists. split; [reflexivity | apply reconciling_calls_target].
    + intros other Ho. apply reconciled_get_other. exact Ho.
  - rewrite (update_slurm_reservation_no_info E cb w Hi) in H.
    injection H as _ <-. simpl. split; [|reflexivity].
    exists []. split; [reflexivity | constructor].
Qed.

Lemma reconciliation_touches_own_reservation_only_witness :
  let cb := CapacityBlock.Build "cr-1" "q1" "r1"
              (Some (CapacityBlockReservationInfo.Build "cr-1" "active")) [] in
  let w := MkWorld [("pcluster-cr-1", "n1"); ("pcluster-cr-2", "n2")] [] in
  get (reservations (snd (_update_slurm_reservation (MkEnv 0 (fun _ => Return []))
                                                    cb w)))
      "pcluster-cr-2"
  = Some "n2".
Proof.
  intros cb w.
  destruct (reconciliation_touches_own_reservation_only
              (MkEnv 0 (fun _ => Return [])) cb w
              (snd (_update_slurm_reservation (MkEnv 0 (fun _ => Return [])) cb w))
              (fst (_update_slurm_reservation (MkEnv 0 (fun _ => Return [])) cb w))
              eq_refl) as [_ Hother].
  rewrite Hother; [reflexivity | discriminate].
Defined.

(** ** The loop over the capacity blocks *)

Lemma fold_reconciled_get_other (cbs : list CapacityBlock.t) (n : string) :
  (forall cb, In cb cbs -> CapacityBlock.slurm_reservation_name cb <> n) ->
  forall d, get (fold_left (fun d cb => reconciled cb d) cbs d) n = get d n.
Proof.
  induction cbs as [|cb cbs IH]; simpl; intros H d.
  - reflexivity.
  - rewrite IH by (intros cb' Hin; apply H; right; exact Hin).
    apply reconciled_get_other. intros Heq. apply (H cb); auto.
Qed.

(** X11. Over capacity blocks with distinct ids that all carry an EC2 state,
    the reconciliation loop returns the node names of the blocks that are not
    active, block after block in the order of the loop. Afterwards the
    scheduler agrees with every block: the reservation of a block that is not
    active holds its node names, and an active block has no reservation.
    Reservations that are named for none of the blocks are as they were. *)
Theorem reconciliation_loop_settles_every_block :
  forall (E : Env) (cbs : list CapacityBlock.t) (w : World),
    NoDup (map CapacityBlock.capacity_block_id cbs) ->
    Forall has_ec2_info cbs ->
    exists w' : World,
      update_slurm_reservations E cbs [] w
      = (Return (flat_map withheld_nodes cbs), w')
      /\ Forall (settled (reservations w')) cbs
      /\ forall n,
          (forall cb, In cb cbs -> CapacityBlock.slurm_reservation_name cb <> n) ->
          get (reservations w') n = get (reservations w) n.
Proof.
  intros E cbs w Hnd Hinfo.
  eexists. split; [apply (update_slurm_reservations_spec E cbs Hinfo [] w)|].
  simpl. split.
  - apply loop_settles. exact Hnd.
  - intros n Hn. apply fold_reconciled_get_other. exact Hn.
Qed.

Lemma reconciliation_loop_settles_every_block_witness :
  let cbs :=
    [CapacityBlock.Build "cr-1" "q1" "r1"
       (Some (CapacityBlockReservationInfo.Build "cr-1" "active")) ["q1-st-r1-1"];
     CapacityBlock.Build "cr-2" "q1" "r2"
       (Some (CapacityBlockReservationInfo.Build "cr-2" "expired"))
       ["q1-st-r2-1"; "q1-st-r2-2"]] in
  let w := MkWorld [("pcluster-cr-1", "q1-st-r1-1"); ("maintenance", "n1")] [] in
  exists w' : World,
    update_slurm_reservations (MkEnv 50 (fun _ => Return [])) cbs [] w
    = (Return ["q1-st-r2-1"; "q1-st-r2-2"], w')
    /\ Forall (settled (reservations w')) cbs
    /\ get (reservations w') "maintenance" = Some "n1".
Proof.
  intros cbs w.
  destruct (reconciliation_loop_settles_every_block
              (MkEnv 50 (fun _ => Return [])) cbs w)
    as (w' & Hrun & Hsettled & Hother).
  - simpl. repeat constructor; simpl; intuition discriminate.
  - repeat constructor; discriminate.
  - exists w'. split; [exact Hrun|]. split; [exact Hsettled|].
    rewrite Hother; [reflexivity|].
    intros cb [<- | [<- | []]]; discriminate.
Defined.

Lemma update_slurm_reservations_app (E : Env) (l1 l2 : list CapacityBlock.t) :
  forall (acc : list string) (w : World),
    update_slurm_reservations E (l1 ++ l2) acc w
    = bind (update_slurm_reservations E l1 acc)
           (fun r => update_slurm_reservations E l2 r) w.
Proof.
  induction l1 as [|cb l1 IH]; simpl; intros acc w.
  - reflexivity.
  - unfold bind. destruct (_update_slurm_reservation E cb w) as [[r|e] w1].
    + rewrite IH. unfold bind. reflexivity.
    + reflexivity.
Qed.

(** X12. The reconciliation loop stops at the first capacity block that has
    no EC2 info: the blocks before it have been reconciled, the existence
    query of that block has been issued, [AttributeError] is raised, and the
    blocks after it are not looked at. *)
Theorem reconciliation_loop_stops_without_info :
  forall (E : Env) (pre post : list CapacityBlock.t) (cb : CapacityBlock.t)
         (acc : list string) (w : World),
    Forall has_ec2_info pre ->
    CapacityBlock._capacity_block_reservation_info cb = None ->
    exists w1 : World,
      update_slurm_reservations E pre acc w
      = (Return (acc ++ flat_map withheld_nodes pre), w1)
      /\ update_slurm_reservations E (pre ++ cb :: post) acc w
         = (Raise (AttributeError "state"),
            MkWorld (reservations w1)
                    (calls w1
                     ++ [DoesSlurmReservationExist
                           (CapacityBlock.slurm_reservation_name cb)])).
Proof.
  intros E pre post cb acc w Hpre Hcb.
  pose proof (update_slurm_reservations_spec E pre Hpre acc w) as H1.
  eexists. split; [exact H1|].
  rewrite update_slurm_reservations_app.
  erewrite bind_Return by exact H1.
  simpl. apply bind_Raise.
  apply update_slurm_reservation_no_info. exact Hcb.
Qed.

Lemma reconciliation_loop_stops_without_info_witness :
  let pending := CapacityBlock.Build "cr-1" "q1" "r1"
                   (Some (CapacityBlockReservationInfo.Build "cr-1" "pending"))
                   ["q1-st-r1-1"] in
  let unknown := CapacityBlock.Build "cr-2" "q1" "r2" None ["q1-st-r2-1"] in
  let last := CapacityBlock.Build "cr-3" "q1" "r3"
                (Some (CapacityBlockReservationInfo.Build "cr-3" "pending"))
                ["q1-st-r3-1"] in
  update_slurm_reservations (MkEnv 7 (fun _ => Return []))
                            [pending; unknown; last] [] (MkWorld [] [])
  = (Raise (AttributeError "state"),
     MkWorld [("pcluster-cr-1", "q1-st-r1-1")]
             [DoesSlurmReservationExist "pcluster-cr-1";
              CreateSlurmReservation "pcluster-cr-1" 7 "q1-st-r1-1";
              DoesSlurmReservationExist "pcluster-cr-2"]).
Proof.
  intros pending unknown last.
  destruct (reconciliation_loop_stops_without_info
              (MkEnv 7 (fun _ => Return [])) [pending] [last] unknown []
              (MkWorld [] [])) as (w1 & H1 & H2).
  - repeat constructor. discriminate.
  - reflexivity.
  - simpl app in H2. rewrite H2.
    vm_compute in H1. injection H1 as <-. reflexivity.
Defined.

(** ** The sweep, run again *)

Lemma filter_idem {A} (f : A -> bool) (l : list A) :
  filter f (filter f l) = filter f l.
Proof.
  induction l as [|x l IH]; simpl; [reflexivity|].
  destruct (f x) eqn:Hx; simpl; [rewrite Hx, IH|]; auto.
Qed.

Lemma no_leftover_after_sweep (ids : list string) (d : dict string) :
  filter (is_leftover ids)
         (keys (filter (fun kv => negb (is_leftover ids (fst kv))) d))
  = [].
Proof.
  unfold keys. induction d as [|[k v] d IH]; simpl; [reflexivity|].
  destruct (is_leftover ids k) eqn:Hk; simpl; [exact IH|].
  rewrite Hk. exact IH.
Qed.

(** X13. The sweep is idempotent: a second sweep right after a first one,
    with the same capacity blocks, lists the reservations and deletes
    nothing, and the reservations stay as the first sweep left them. *)
Theorem second_sweep_deletes_nothing :
  forall s : System,
    exists w1 w2 : World,
      _cleanup_leftover_slurm_reservations s = (Return tt, MkSystem (self s) w1)
      /\ _cleanup_leftover_slurm_reservations (MkSystem (self s) w1)
         = (Return tt, MkSystem (self s) w2)
      /\ calls w2 = calls w1 ++ [GetSlurmReservationsInfo]
      /\ reservations w2 = reservations w1.
Proof.
  intros s. eexists. eexists.
  split; [apply cleanup_leftover_run|].
  split; [rewrite cleanup_leftover_run; simpl; reflexivity|].
  simpl. rewrite no_leftover_after_sweep, filter_idem. split; reflexivity.
Qed.

(** ** Reservations that are not the manager's *)

Lemma respects_refl (w : World) : respects_unmanaged w w.
Proof.
  split; [reflexivity|]. exists []. rewrite app_nil_r. split; constructor.
Qed.

Lemma respects_trans (w1 w2 w3 : World) :
  respects_unmanaged w1 w2 -> respects_unmanaged w2 w3 ->
  respects_unmanaged w1 w3.
Proof.
  intros [H1 (cs1 & Hc1 & Hf1)] [H2 (cs2 & Hc2 & Hf2)]. split.
  - congruence.
  - exists (cs1 ++ cs2). split.
    + rewrite Hc2, Hc1, app_assoc. reflexivity.
    + apply Forall_app. split; assumption.
Qed.

Lemma filter_unmanaged_set (d : dict string) (name v : string) :
  CapacityBlock.is_capacity_block_slurm_reservation name = true ->
  filter unmanaged (set d name v) = filter unmanaged d.
Proof.
  intros Hm. induction d as [|[k0 v0] d IH]; simpl.
  - unfold unmanaged. simpl. rewrite Hm. reflexivity.
  - destruct (String.eqb name k0) eqn:Hk; simpl.
    + apply String.eqb_eq in Hk. subst k0.
      unfold unmanaged. simpl. rewrite Hm. reflexivity.
    + rewrite IH. reflexivity.
Qed.

Lemma filter_unmanaged_remove (d : dict string) (name : string) :
  CapacityBlock.is_capacity_block_slurm_reservation name = true ->
  filter unmanaged (remove_reservation name d) = filter unmanaged d.
Proof.
  intros Hm. unfold remove_reservation.
  induction d as [|[k0 v0] d IH]; simpl; [reflexivity|].
  destruct (String.eqb name k0) eqn:Hk; simpl.
  - apply String.eqb_eq in Hk. subst k0.
    unfold unmanaged at 2. simpl. rewrite Hm. simpl. exact IH.
  - rewrite IH. reflexivity.
Qed.

Lemma polite_ret {A} (a : A) : polite (ret a).
Proof. intros w o w' H. injection H as _ <-. apply respects_refl. Qed.

Lemma polite_bind {A B} (c : M World A) (k : A -> M World B) :
  polite c -> (forall a, polite (k a)) -> polite (bind c k).
Proof.
  intros Hc Hk w o w' H. unfold bind in H.
  destruct (c w) as [[a|e] w1] eqn:Hcw.
  - eapply respects_trans; [eapply Hc | eapply Hk]; eassumption.
  - injection H as _ <-. eapply Hc; eassumption.
Qed.

Lemma polite_gets {A} (f : World -> A) : polite (gets f).
Proof. intros w o w' H. injection H as _ <-. apply respects_refl. Qed.

Lemma polite_of_outcome {A} (o : outcome A) : polite (of_outcome o).
Proof. intros w o' w' H. injection H as _ <-. apply respects_refl. Qed.

Lemma polite_record_call (c : call) : targets_managed c -> polite (record_call c).
Proof.
  intros Hc w o w' H. injection H as _ <-. split; [reflexivity|].
  exists [c]. split; [reflexivity | repeat constructor; exact Hc].
Qed.

Lemma polite_set_reservations (f : dict string -> dict string) :
  (forall d, filter unmanaged (f d) = filter unmanaged d) ->
  polite (set_reservations f).
Proof.
  intros Hf w o w' H. injection H as _ <-. split; [apply Hf|].
  exists []. simpl. rewrite app_nil_r. split; constructor.
Qed.

Lemma polite_exists (name : string) : polite (does_slurm_reservation_exist name).
Proof.
  apply polite_bind; [apply polite_record_call; exact I|].
  intros _. apply polite_gets.
Qed.

Lemma polite_create (name : string) (start_time : datetime) (nodes : string) :
  CapacityBlock.is_capacity_block_slurm_reservation name = true ->
  polite (create_slurm_reservation name start_time nodes).
Proof.
  intros Hm. apply polite_bind; [apply polite_record_call; exact Hm|].
  intros _. apply polite_set_reservations.
  intros d. apply filter_unmanaged_set. exact Hm.
Qed.

Lemma polite_update (name nodes : string) :
  CapacityBlock.is_capacity_block_slurm_reservation name = true ->
  polite (update_slurm_reservation name nodes).
Proof.
  intros Hm. apply polite_bind; [apply polite_record_call; exact Hm|].
  intros _. apply polite_set_reservations.
  intros d. apply filter_unmanaged_set. exact Hm.
Qed.

Lemma polite_delete (name : string) :
  CapacityBlock.is_capacity_block_slurm_reservation name = true ->
  polite (delete_slurm_reservation name).
Proof.
  intros Hm. apply polite_bind; [apply polite_record_call; exact Hm|].
  intros _. apply polite_set_reservations.
  intros d. apply filter_unmanaged_remove. exact Hm.
Qed.

Lemma polite_update_slurm_reservation (E : Env) (cb : CapacityBlock.t) :
  polite (_update_slurm_reservation E cb).
Proof.
  assert (Hm : CapacityBlock.is_capacity_block_slurm_reservation
                 (CapacityBlock.slurm_reservation_name cb) = true).
  { unfold CapacityBlock.is_capacity_block_slurm_reservation,
      CapacityBlock.slurm_reservation_name. apply startswith_app. }
  unfold _update_slurm_reservation.
  apply polite_bind; [apply polite_exists|]. intros reservation_exists.
  apply polite_bind; [apply polite_of_outcome|]. intros is_active.
  destruct is_active, reservation_exists;
    try (apply polite_bind;
         [first [apply polite_delete | apply polite_update | apply polite_create];
          exact Hm
         | intros _]);
    apply polite_ret.
Qed.

Lemma polite_update_slurm_reservations (E : Env) (cbs : list CapacityBlock.t) :
  forall acc, polite (update_slurm_reservations E cbs acc).
Proof.
  induction cbs as [|cb cbs IH]; intros acc; simpl.
  - apply polite_ret.
  - apply polite_bind; [apply polite_update_slurm_reservation|].
    intros r. apply IH.
Qed.

Lemma polite_cleanup_reservations (ids : list string)
    (l : list SlurmReservation.t) :
  polite (cleanup_reservations ids l).
Proof.
  induction l as [|r l IH]; simpl.
  - apply polite_ret.
  - apply polite_bind; [|intros _; exact IH].
    destruct (CapacityBlock.is_capacity_block_slurm_reservation
                (SlurmReservation.name r)) eqn:Hm; [|apply polite_ret].
    destruct (negb _); [apply polite_delete; exact Hm | apply polite_ret].
Qed.

Lemma polite_sys_bind {A B} (c : M System A) (k : A -> M System B) :
  polite_sys c -> (forall a, polite_sys (k a)) -> polite_sys (bind c k).
Proof.
  intros Hc Hk s o s' H. unfold bind in H.
  destruct (c s) as [[a|e] s1] eqn:Hcs.
  - eapply respects_trans; [eapply Hc | eapply Hk]; eassumption.
  - injection H as _ <-. eapply Hc; eassumption.
Qed.

Lemma polite_sys_same_world {A} (c : M System A) :
  (forall s, world (snd (c s)) = world s) -> polite_sys c.
Proof.
  intros Hc s o s' H. specialize (Hc s). rewrite H in Hc. simpl in Hc.
  rewrite Hc. apply respects_refl.
Qed.

Lemma polite_sys_in_world {A} (c : M World A) : polite c -> polite_sys (in_world c).
Proof.
  intros Hc s o s' H. unfold in_world in H.
  destruct (c (world s)) as [o1 w1] eqn:Hcw. injection H as _ <-.
  simpl. eapply Hc. eassumption.
Qed.

Lemma polite_sys_store_ec2_info (infos : list CapacityBlockReservationInfo.t) :
  polite_sys (store_ec2_info infos).
Proof.
  induction infos as [|info infos IH]; simpl.
  - apply polite_sys_same_world. reflexivity.
  - apply polite_sys_bind; [apply polite_sys_same_world; reflexivity|].
    intros cbs. destruct (get cbs _).
    + apply polite_sys_bind; [apply polite_sys_same_world; reflexivity|].
      intros _. exact IH.
    + apply polite_sys_same_world. reflexivity.
Qed.

Lemma polite_sys_update_info (E : Env) :
  polite_sys (_update_capacity_blocks_info_from_ec2 E).
Proof.
  unfold _update_capacity_blocks_info_from_ec2.
  apply polite_sys_bind; [apply polite_sys_same_world; reflexivity|]. intros fc.
  apply polite_sys_bind; [apply polite_sys_same_world; reflexivity|]. intros cbs.
  apply polite_sys_bind; [apply polite_sys_same_world; reflexivity|]. intros _.
  apply polite_sys_bind; [|intros _; apply polite_sys_same_world; reflexivity].
  destruct cbs as [|kv cbs]; [apply polite_sys_same_world; reflexivity|].
  apply polite_sys_bind;
    [apply polite_sys_in_world; apply polite_record_call; exact I|]. intros _.
  apply polite_sys_bind; [apply polite_sys_same_world; reflexivity|]. intros infos.
  apply polite_sys_store_ec2_info.
Qed.

Lemma polite_sys_cleanup : polite_sys _cleanup_leftover_slurm_reservations.
Proof.
  unfold _cleanup_leftover_slurm_reservations.
  apply polite_sys_bind.
  - apply polite_sys_in_world. unfold get_slurm_reservations_info.
    apply polite_bind; [apply polite_record_call; exact I|].
    intros _. apply polite_gets.
  - intros l. apply polite_sys_bind; [apply polite_sys_same_world; reflexivity|].
    intros ids. apply polite_sys_in_world. apply polite_cleanup_reservations.
Qed.

Lemma polite_sys_get_reserved_nodenames (E : Env) (nodes : list SlurmNode.t) :
  polite_sys (get_reserved_nodenames E nodes).
Proof.
  unfold get_reserved_nodenames.
  apply polite_sys_bind; [apply polite_sys_same_world; reflexivity|]. intros t.
  apply polite_sys_bind; [|intros _; apply polite_sys_same_world; reflexivity].
  destruct (is_time_to_update E t); [|apply polite_sys_same_world; reflexivity].
  apply polite_sys_bind; [apply polite_sys_update_info|]. intros _.
  apply polite_sys_bind; [apply polite_sys_same_world; reflexivity|]. intros _.
  apply polite_sys_bind; [apply polite_sys_same_world; reflexivity|]. intros cbs.
  apply polite_sys_bind;
    [apply polite_sys_in_world; apply polite_update_slurm_reservations|].
  intros r.
  apply polite_sys_bind; [apply polite_sys_same_world; reflexivity|]. intros _.
  apply polite_sys_cleanup.
Qed.

(** X14. Whatever [get_reserved_nodenames] does and however it ends (a list
    returned or an exception raised at any point), the scheduler's
    reservations whose name does not start with the prefix are the same
    afterwards, in the same order, and every create, update or delete it has
    issued is for a reservation whose name starts with the prefix. *)
Theorem unmanaged_reservations_are_never_touched :
  forall (E : Env) (nodes : list SlurmNode.t) (s : System),
    let s' := snd (get_reserved_nodenames E nodes s) in
    filter unmanaged (reservations (world s'))
    = filter unmanaged (reservations (world s))
    /\ exists cs : list call,
        calls (world s') = calls (world s) ++ cs
        /\ Forall (fun c =>
                     forall name, call_target c = Some name ->
                       Py.startswith name SLURM_RESERVATION_NAME_PREFIX = true)
                  cs.
Proof.
  intros E nodes s s'.
  destruct (polite_sys_get_reserved_nodenames E nodes s
              (fst (get_reserved_nodenames E nodes s)) s')
    as [Hres (cs & Hcalls & Hcs)].
  - unfold s'. destruct (get_reserved_nodenames E nodes s); reflexivity.
  - split; [exact Hres|]. exists cs. split; [exact Hcalls|].
    eapply Forall_impl; [|exact Hcs].
    intros c Hc name Hn. unfold targets_managed in Hc. rewrite Hn in Hc. exact Hc.
Qed.

(** ** The refresh from EC2, when EC2 answers *)

Lemma known_get (d : dict CapacityBlock.t) (info : CapacityBlockReservationInfo.t) :
  known d info ->
  exists cb,
    get d (CapacityBlockReservationInfo.capacity_reservation_id info) = Some cb.
Proof.
  unfold known. intros H. apply contains_keys in H. unfold contains in H.
  destruct (get d _) as [cb|]; [exists cb; reflexivity | discriminate].
Qed.

Lemma keys_with_info (d : dict CapacityBlock.t)
    (info : CapacityBlockReservationInfo.t) :
  keys (with_info d info) = keys d.
Proof.
  unfold with_info.
  destruct (get d _) as [cb|] eqn:Hg; [|reflexivity].
  rewrite keys_set. unfold contains. rewrite Hg. reflexivity.
Qed.

Lemma keys_fold_with_info (infos : list CapacityBlockReservationInfo.t) :
  forall d, keys (fold_left with_info infos d) = keys d.
Proof.
  induction infos as [|info infos IH]; intros d; simpl.
  - reflexivity.
  - rewrite IH. apply keys_with_info.
Qed.

Lemma store_ec2_info_run (infos : list CapacityBlockReservationInfo.t) :
  forall fc d time reserved w,
    Forall (known d) infos ->
    store_ec2_info infos (MkSystem (Build fc d time reserved) w)
    = (Return tt, MkSystem (Build fc (fold_left with_info infos d) time reserved) w).
Proof.
  induction infos as [|info infos IH]; intros fc d time reserved w Hk; simpl.
  - reflexivity.
  - inversion Hk as [|? ? Hinfo Hrest]; subst.
    destruct (known_get d info Hinfo) as [cb Hg].
    unfold bind at 1. unfold gets. simpl. rewrite Hg.
    unfold bind, set_capacity_blocks, modify. simpl.
    rewrite IH.
    + unfold with_info. rewrite Hg. reflexivity.
    + eapply Forall_impl; [|exact Hrest]. intros i Hi. unfold known in *.
      rewrite keys_set. unfold contains. rewrite Hg. exact Hi.
Qed.

Lemma store_ec2_info_unknown (pre post : list CapacityBlockReservationInfo.t)
    (info : CapacityBlockReservationInfo.t) :
  forall fc d time reserved w,
    Forall (known d) pre -> ~ known d info ->
    store_ec2_info (pre ++ info :: post) (MkSystem (Build fc d time reserved) w)
    = (Raise (KeyError (CapacityBlockReservationInfo.capacity_reservation_id info)),
       MkSystem (Build fc (fold_left with_info pre d) time reserved) w).
Proof.
  induction pre as [|i pre IH]; intros fc d time reserved w Hk Hn; simpl.
  - unfold bind, gets. simpl.
    destruct (get d _) as [cb|] eqn:Hg; [|reflexivity].
    exfalso. apply Hn. unfold known. apply contains_keys.
    unfold contains. rewrite Hg. reflexivity.
  - inversion Hk as [|? ? Hi Hrest]; subst.
    destruct (known_get d i Hi) as [cb Hg].
    unfold bind at 1. unfold gets. simpl. rewrite Hg.
    unfold bind at 1. unfold set_capacity_blocks, modify. simpl.
    assert (Hkeys : keys (set d (CapacityBlockReservationInfo.capacity_reservation_id i)
                              (CapacityBlock.update_ec2_info cb i)) = keys d).
    { rewrite keys_set. unfold contains. rewrite Hg. reflexivity. }
    rewrite IH.
    + unfold with_info. rewrite Hg. reflexivity.
    + eapply Forall_impl; [|exact Hrest]. intros j Hj. unfold known in *.
      rewrite Hkeys. exact Hj.
    + unfold known in *. rewrite Hkeys. exact Hn.
Qed.

Lemma update_info_run (E : Env) (s : System) (cbs : dict CapacityBlock.t)
    (infos : list CapacityBlockReservationInfo.t) :
  _capacity_blocks_from_config (_fleet_config (self s)) = Return cbs ->
  cbs <> [] ->
  describe_capacity_reservations E (keys cbs) = Return infos ->
  Forall (known cbs) infos ->
  _update_capacity_blocks_info_from_ec2 E s
  = (Return tt,
     MkSystem (Build (_fleet_config (self s)) (fold_left with_info infos cbs)
                     (Some (now E)) (_reserved_nodenames (self s)))
              (MkWorld (reservations (world s))
                       (calls (world s)
                        ++ [DescribeCapacityReservations (keys cbs)]))).
Proof.
  intros Hp Hne Hd Hk.
  unfold _update_capacity_blocks_info_from_ec2.
  erewrite bind_Return by reflexivity.
  erewrite bind_Return by (unfold of_outcome; rewrite Hp; reflexivity).
  erewrite bind_Return by reflexivity.
  destruct cbs as [|kv cbs]; [congruence|].
  erewrite bind_Return; cycle 1.
  { erewrite bind_Return by reflexivity.
    erewrite bind_Return by (unfold of_outcome; rewrite Hd; reflexivity).
    unfold set_capacity_blocks, modify, in_world, record_call. simpl.
    apply store_ec2_info_run. exact Hk. }
  reflexivity.
Qed.

Lemma find_app {A} (f : A -> bool) (l1 l2 : list A) :
  find f (l1 ++ l2)
  = match find f l1 with Some x => Some x | None => find f l2 end.
Proof.
  induction l1 as [|x l1 IH]; simpl; [reflexivity|].
  destruct (f x); [reflexivity | exact IH].
Qed.

Lemma map_other_keys {V} (g : string * V -> string * V) (d : dict V) (k : string) :
  ~ In k (keys d) ->
  (forall kv, fst kv <> k -> g kv = kv) ->
  map g d = d.
Proof.
  intros Hnin Hg. induction d as [|[k0 v0] d IH]; simpl; [reflexivity|].
  rewrite Hg by (simpl; intros ->; apply Hnin; left; reflexivity).
  rewrite IH; [reflexivity|]. intros Hin. apply Hnin. right. exact Hin.
Qed.

Lemma with_info_map (d : dict CapacityBlock.t)
    (info : CapacityBlockReservationInfo.t) :
  NoDup (keys d) ->
  with_info d info
  = map (fun kv =>
           if String.eqb (CapacityBlockReservationInfo.capacity_reservation_id info)
                         (fst kv)
           then (fst kv, CapacityBlock.update_ec2_info (snd kv) info)
           else kv)
        d.
Proof.
  unfold with_info.
  set (id := CapacityBlockReservationInfo.capacity_reservation_id info).
  induction d as [|[k0 v0] d IH]; simpl; intros Hnd; [reflexivity|].
  inversion Hnd as [|? ? Hnin Hnd']; subst.
  destruct (String.eqb id k0) eqn:Hk; simpl.
  - f_equal. symmetry.
    apply String.eqb_eq in Hk. subst k0.
    apply (map_other_keys _ d id Hnin).
    intros kv Hkv. apply not_eq_sym in Hkv. apply String.eqb_neq in Hkv.
    rewrite Hkv. reflexivity.
  - specialize (IH Hnd'). destruct (get d id) as [cb|]; simpl;
      try rewrite Hk; f_equal; exact IH.
Qed.

Lemma fold_with_info_informed (infos : list CapacityBlockReservationInfo.t) :
  forall d, NoDup (keys d) -> fold_left with_info infos d = informed infos d.
Proof.
  induction infos as [|info infos IH]; intros d Hnd; simpl.
  - unfold informed, latest_info. simpl.
    induction d as [|[k v] d IHd]; simpl; [reflexivity|].
    inversion Hnd; subst. rewrite <- IHd by assumption. reflexivity.
  - rewrite IH by (rewrite keys_with_info; exact Hnd).
    rewrite (with_info_map d info Hnd). unfold informed. rewrite map_map.
    apply map_ext. intros [k v]. simpl.
    unfold latest_info. simpl rev. rewrite find_app. simpl.
    rewrite (String.eqb_sym
               (CapacityBlockReservationInfo.capacity_reservation_id info) k).
    destruct (String.eqb k _) eqn:Hk; simpl.
    + destruct (find _ (rev infos)); reflexivity.
    + destruct (find _ (rev infos)); reflexivity.
Qed.

(** X15. When the configuration gives capacity blocks and EC2 answers with
    infos whose ids are all configured, [_update_capacity_blocks_info_from_ec2]
    issues one describe call for all the ids, sets the time of the refresh to
    now and replaces [_capacity_blocks], whatever it held, by the capacity
    blocks built from the configuration, each with the last info of the
    answer that has its id, and without EC2 info when the answer has none for
    it; no capacity block has a node name. The reserved nodes and the
    scheduler are not touched. *)
Theorem ec2_refresh_stores_answer :
  forall (E : Env) (s : System) (cbs : dict CapacityBlock.t)
         (infos : list CapacityBlockReservationInfo.t),
    _capacity_blocks_from_config (_fleet_config (self s)) = Return cbs ->
    cbs <> [] ->
    describe_capacity_reservations E (keys cbs) = Return infos ->
    Forall (known cbs) infos ->
    _update_capacity_blocks_info_from_ec2 E s
    = (Return tt,
       MkSystem (Build (_fleet_config (self s)) (informed infos cbs)
                       (Some (now E)) (_reserved_nodenames (self s)))
                (MkWorld (reservations (world s))
                         (calls (world s)
                          ++ [DescribeCapacityReservations (keys cbs)])))
    /\ forall k cb, In (k, cb) (informed infos cbs) ->
         CapacityBlock._capacity_block_reservation_info cb = latest_info infos k
         /\ CapacityBlock.nodenames cb = [].
Proof.
  intros E s cbs infos Hp Hne Hd Hk.
  destruct (from_config_projected _ _ Hp) as [[Hnd Hfresh] _].
  split.
  - rewrite (update_info_run E s cbs infos Hp Hne Hd Hk).
    rewrite (fold_with_info_informed infos cbs Hnd). reflexivity.
  - intros k cb Hin. unfold informed in Hin. apply in_map_iff in Hin.
    destruct Hin as ([k0 cb0] & Heq & Hin0). simpl in Heq.
    injection Heq as <- <-.
    destruct (Hfresh _ _ Hin0) as (q & cr & -> & _).
    destruct (latest_info infos k0); split; reflexivity.
Qed.

Lemma ec2_refresh_stores_answer_witness :
  let block id := [("CapacityType", "capacity-block"); ("CapacityReservationId", id)] in
  let fc : fleet_config := [("q1", [("r1", block "cr-1"); ("r2", block "cr-2")])] in
  let stale := CapacityBlock.Build "cr-0" "q0" "r0" None ["q0-st-r0-1"] in
  let s := MkSystem (Build fc [("cr-0", stale)] None ["q0-st-r0-1"])
                    (MkWorld [] []) in
  let E := MkEnv 500
             (fun _ => Return [CapacityBlockReservationInfo.Build "cr-2" "pending";
                               CapacityBlockReservationInfo.Build "cr-2" "active"]) in
  _update_capacity_blocks_info_from_ec2 E s
  = (Return tt,
     MkSystem
       (Build fc
          [("cr-1", CapacityBlock.Build "cr-1" "q1" "r1" None []);
           ("cr-2", CapacityBlock.Build "cr-2" "q1" "r2"
                      (Some (CapacityBlockReservationInfo.Build "cr-2" "active")) [])]
          (Some 500) ["q0-st-r0-1"])
       (MkWorld [] [DescribeCapacityReservations ["cr-1"; "cr-2"]])).
Proof.
  intros block fc stale s E.
  set (cbs := [("cr-1", CapacityBlock.__init__ "cr-1" "q1" "r1");
               ("cr-2", CapacityBlock.__init__ "cr-2" "q1" "r2")]).
  set (infos := [CapacityBlockReservationInfo.Build "cr-2" "pending";
                 CapacityBlockReservationInfo.Build "cr-2" "active"]).
  assert (Hne : cbs <> []) by discriminate.
  assert (Hk : Forall (known cbs) infos)
    by (repeat constructor; unfold known; simpl; auto).
  exact (proj1 (ec2_refresh_stores_answer E s cbs infos eq_refl Hne eq_refl Hk)).
Defined.

(** X16. When the answer of EC2 holds an info whose id is not configured, the
    loop that stores the answer raises the [KeyError] of that id at the first
    such info: the infos before it have been stored, the time of the refresh
    is not set (the next call tries again), and the reserved nodes and the
    scheduler are not touched. *)
Theorem ec2_refresh_unknown_id_raises :
  forall (E : Env) (s : System) (cbs : dict CapacityBlock.t)
         (pre post : list CapacityBlockReservationInfo.t)
         (info : CapacityBlockReservationInfo.t),
    _capacity_blocks_from_config (_fleet_config (self s)) = Return cbs ->
    cbs <> [] ->
    describe_capacity_reservations E (keys cbs) = Return (pre ++ info :: post) ->
    Forall (known cbs) pre ->
    ~ In (CapacityBlockReservationInfo.capacity_reservation_id info) (keys cbs) ->
    _update_capacity_blocks_info_from_ec2 E s
    = (Raise (KeyError (CapacityBlockReservationInfo.capacity_reservation_id info)),
       MkSystem (Build (_fleet_config (self s)) (informed pre cbs)
                       (_capacity_blocks_update_time (self s))
                       (_reserved_nodenames (self s)))
                (MkWorld (reservations (world s))
                         (calls (world s)
                          ++ [DescribeCapacityReservations (keys cbs)]))).
Proof.
  intros E s cbs pre post info Hp Hne Hd Hk Hn.
  destruct (from_config_projected _ _ Hp) as [[Hnd _] _].
  rewrite <- (fold_with_info_informed pre cbs Hnd).
  unfold _update_capacity_blocks_info_from_ec2.
  erewrite bind_Return by reflexivity.
  erewrite bind_Return by (unfold of_outcome; rewrite Hp; reflexivity).
  erewrite bind_Return by reflexivity.
  destruct cbs as [|kv cbs]; [congruence|].
  apply bind_Raise.
  erewrite bind_Return by reflexivity.
  erewrite bind_Return by (unfold of_outcome; rewrite Hd; reflexivity).
  unfold set_capacity_blocks, modify, in_world, record_call. simpl.
  apply store_ec2_info_unknown; assumption.
Qed.

Lemma ec2_refresh_unknown_id_raises_witness :
  let block id := [("CapacityType", "capacity-block"); ("CapacityReservationId", id)] in
  let fc : fleet_config := [("q1", [("r1", block "cr-1")])] in
  let s := MkSystem (Build fc [] (Some 3) ["n0"]) (MkWorld [] []) in
  let E := MkEnv 900
             (fun _ => Return [CapacityBlockReservationInfo.Build "cr-1" "pending";
                               CapacityBlockReservationInfo.Build "cr-9" "active"]) in
  _update_capacity_blocks_info_from_ec2 E s
  = (Raise (KeyError "cr-9"),
     MkSystem
       (Build fc
          [("cr-1", CapacityBlock.Build "cr-1" "q1" "r1"
                      (Some (CapacityBlockReservationInfo.Build "cr-1" "pending")) [])]
          (Some 3) ["n0"])
       (MkWorld [] [DescribeCapacityReservations ["cr-1"]])).
Proof.
  intros block fc s E.
  set (cbs := [("cr-1", CapacityBlock.__init__ "cr-1" "q1" "r1")]).
  set (unknown := CapacityBlockReservationInfo.Build "cr-9" "active").
  assert (Hne : cbs <> []) by discriminate.
  assert (Hk : Forall (known cbs)
                      [CapacityBlockReservationInfo.Build "cr-1" "pending"])
    by (repeat constructor; unfold known; simpl; auto).
  assert (Hn : ~ In (CapacityBlockReservationInfo.capacity_reservation_id unknown)
                    (keys cbs))
    by (simpl; intuition discriminate).
  exact (ec2_refresh_unknown_id_raises E s cbs
           [CapacityBlockReservationInfo.Build "cr-1" "pending"] [] unknown
           eq_refl Hne eq_refl Hk Hn).
Defined.

(** ** A whole refresh *)

Lemma keys_informed (infos : list CapacityBlockReservationInfo.t)
    (d : dict CapacityBlock.t) :
  keys (informed infos d) = keys d.
Proof. unfold informed, keys. rewrite map_map. reflexivity. Qed.

Lemma info_add_nodenames (cb : CapacityBlock.t) (l : list string) :
  CapacityBlock._capacity_block_reservation_info (add_nodenames cb l)
  = CapacityBlock._capacity_block_reservation_info cb.
Proof.
  unfold add_nodenames. revert cb.
  induction l as [|x l IH]; intros cb; simpl; [reflexivity|].
  rewrite IH. reflexivity.
Qed.

Lemma id_add_nodenames (cb : CapacityBlock.t) (l : list string) :
  CapacityBlock.capacity_block_id (add_nodenames cb l)
  = CapacityBlock.capacity_block_id cb.
Proof.
  unfold add_nodenames. revert cb.
  induction l as [|x l IH]; intros cb; simpl; [reflexivity|].
  rewrite IH. reflexivity.
Qed.

Lemma has_info_bound (d : dict CapacityBlock.t) :
  Forall has_ec2_info (values d) ->
  forall nodes, Forall has_ec2_info (values (bound nodes d)).
Proof.
  induction d as [|[k cb] d IH]; simpl; intros H nodes.
  - constructor.
  - inversion H as [|? ? Hcb Hd]; subst. constructor.
    + unfold has_ec2_info. rewrite info_add_nodenames. exact Hcb.
    + apply IH. exact Hd.
Qed.

Lemma has_info_informed (infos : list CapacityBlockReservationInfo.t)
    (d : dict CapacityBlock.t) :
  (forall k, In k (keys d) -> latest_info infos k <> None) ->
  Forall has_ec2_info (values (informed infos d)).
Proof.
  unfold values, informed. rewrite map_map. intros H.
  apply Forall_map. apply Forall_forall. intros [k cb] Hin. simpl.
  assert (Hk : In k (keys d)).
  { unfold keys. apply in_map_iff. exists (k, cb). auto. }
  specialize (H k Hk). unfold has_ec2_info.
  destruct (latest_info infos k); [discriminate | congruence].
Qed.

(** X17. A refresh that is due, with capacity blocks in the configuration
    and an answer of EC2 that has an info for each of them and for no other
    id, returns the node names of the capacity blocks that are not active:
    the blocks in the order of the dict, each with the names of the nodes of
    its queue and compute resource in the order of the node list. It stores
    these blocks and this list in the manager and sets the time of the
    refresh to now. The scheduler's reservations afterwards are those the
    reconciliation loop leaves, without the leftovers removed by the sweep. *)
Theorem refresh_returns_nodes_of_inactive_blocks :
  forall (E : Env) (nodes : list SlurmNode.t) (s : System)
         (cbs : dict CapacityBlock.t)
         (infos : list CapacityBlockReservationInfo.t),
    is_time_to_update E (_capacity_blocks_update_time (self s)) = true ->
    _capacity_blocks_from_config (_fleet_config (self s)) = Return cbs ->
    cbs <> [] ->
    describe_capacity_reservations E (keys cbs) = Return infos ->
    Forall (known cbs) infos ->
    (forall k, In k (keys cbs) -> latest_info infos k <> None) ->
    let blocks := bound nodes (informed infos cbs) in
    let reserved := flat_map withheld_nodes (values blocks) in
    exists w' : World,
      get_reserved_nodenames E nodes s
      = (Return reserved,
         MkSystem (Build (_fleet_config (self s)) blocks (Some (now E)) reserved)
                  w')
      /\ reservations w'
         = filter (fun kv => negb (is_leftover (keys cbs) (fst kv)))
                  (fold_left (fun d cb => reconciled cb d) (values blocks)
                             (reservations (world s))).
Proof.
  intros E nodes s cbs infos Hdue Hp Hne Hd Hk Hall blocks reserved.
  destruct (from_config_projected _ _ Hp) as [[Hnd _] _].
  assert (Hinfo : Forall has_ec2_info (values blocks)).
  { apply has_info_bound. apply has_info_informed. exact Hall. }
  assert (Hkeys : keys blocks = keys cbs).
  { unfold blocks. rewrite keys_bound. apply keys_informed. }
  eexists. split.
  - unfold get_reserved_nodenames.
    erewrite bind_Return by reflexivity. rewrite Hdue.
    erewrite bind_Return; cycle 1.
    { erewrite bind_Return by (apply update_info_run; eassumption).
      erewrite bind_Return by apply associate_run.
      simpl. rewrite associate_nodes_bound, (fold_with_info_informed _ _ Hnd).
      fold blocks.
      erewrite bind_Return by reflexivity.
      erewrite bind_Return; cycle 1.
      { unfold in_world. simpl.
        rewrite (update_slurm_reservations_spec E _ Hinfo). simpl. reflexivity. }
      fold reserved.
      erewrite bind_Return by reflexivity.
      rewrite cleanup_leftover_run. simpl. rewrite Hkeys. reflexivity. }
    reflexivity.
  - reflexivity.
Qed.

Lemma refresh_returns_nodes_of_inactive_blocks_witness :
  let block id := [("CapacityType", "capacity-block"); ("CapacityReservationId", id)] in
  let fc : fleet_config :=
    [("q1", [("r1", block "cr-1"); ("r2", block "cr-2");
             ("r3", [("CapacityType", "on-demand")])])] in
  let nodes := [SlurmNode.Build "q1-st-r2-1" "q1" "r2";
                SlurmNode.Build "q1-st-r1-1" "q1" "r1";
                SlurmNode.Build "q1-dy-r3-1" "q1" "r3";
                SlurmNode.Build "q1-st-r1-2" "q1" "r1"] in
  let E := MkEnv 1200
             (fun _ => Return [CapacityBlockReservationInfo.Build "cr-1" "pending";
                               CapacityBlockReservationInfo.Build "cr-2" "active"]) in
  let s := MkSystem (Build fc [] (Some 0) [])
                    (MkWorld [("pcluster-cr-2", "q1-st-r2-1");
                              ("pcluster-cr-0", "q0-st-r0-1");
                              ("maintenance", "q1-dy-r3-1")] []) in
  exists w' : World,
    fst (get_reserved_nodenames E nodes s) = Return ["q1-st-r1-1"; "q1-st-r1-2"]
    /\ world (snd (get_reserved_nodenames E nodes s)) = w'
    /\ reservations w'
       = [("maintenance", "q1-dy-r3-1"); ("pcluster-cr-1", "q1-st-r1-1,q1-st-r1-2")].
Proof.
  intros block fc nodes E s.
  set (cbs := [("cr-1", CapacityBlock.__init__ "cr-1" "q1" "r1");
               ("cr-2", CapacityBlock.__init__ "cr-2" "q1" "r2")]).
  set (infos := [CapacityBlockReservationInfo.Build "cr-1" "pending";
                 CapacityBlockReservationInfo.Build "cr-2" "active"]).
  assert (Hne : cbs <> []) by discriminate.
  assert (Hk : Forall (known cbs) infos)
    by (repeat constructor; unfold known; simpl; auto).
  assert (Hall : forall k, In k (keys cbs) -> latest_info infos k <> None).
  { intros k [<- | [<- | []]]; discriminate. }
  destruct (refresh_returns_nodes_of_inactive_blocks E nodes s cbs infos
              eq_refl eq_refl Hne eq_refl Hk Hall) as (w' & Hrun & Hres).
  exists w'. rewrite Hrun. split; [reflexivity|]. split; [reflexivity|].
  rewrite Hres. reflexivity.
Defined.

(** ** The scheduler after a refresh *)

Lemma keyed_projected (fc : fleet_config) (d : dict CapacityBlock.t) :
  projected fc d -> keyed d.
Proof.
  intros [Hnd Hd]. split; [exact Hnd|].
  apply Forall_forall. intros [k cb] Hin.
  destruct (Hd k cb Hin) as (q & cr & -> & _). reflexivity.
Qed.

Lemma keyed_set (d : dict CapacityBlock.t) (k : string) (v : CapacityBlock.t) :
  keyed d -> CapacityBlock.capacity_block_id v = k -> keyed (set d k v).
Proof.
  intros [Hnd Hd] Hv. split; [apply NoDup_keys_set; exact Hnd|].
  rewrite Forall_forall in *. intros [k' v'] Hin.
  apply in_set in Hin. destruct Hin as [Heq | Hin].
  - injection Heq as -> ->. exact Hv.
  - apply (Hd _ Hin).
Qed.

Lemma keyed_get (d : dict CapacityBlock.t) (k : string) (cb : CapacityBlock.t) :
  keyed d -> get d k = Some cb -> CapacityBlock.capacity_block_id cb = k.
Proof.
  intros [_ Hd]. induction Hd as [|[k0 v0] d H0 Hd IH]; simpl; intros H.
  - discriminate.
  - destruct (String.eqb k k0) eqn:Hk.
    + apply String.eqb_eq in Hk. injection H as <-. subst k0. exact H0.
    + apply IH. exact H.
Qed.

Lemma store_ec2_info_keyed (infos : list CapacityBlockReservationInfo.t) :
  forall s o s',
    store_ec2_info infos s = (o, s') ->
    keyed (_capacity_blocks (self s)) -> keyed (_capacity_blocks (self s')).
Proof.
  induction infos as [|info infos IH]; simpl; intros s o s' H Hs.
  - injection H as _ <-. exact Hs.
  - unfold bind at 1 in H. unfold gets in H.
    destruct (get (_capacity_blocks (self s)) _) as [cb|] eqn:Hget.
    + unfold bind, set_capacity_blocks, modify in H.
      apply IH in H; [exact H|]. simpl.
      apply keyed_set; [exact Hs|]. exact (keyed_get _ _ _ Hs Hget).
    + injection H as _ <-. exact Hs.
Qed.

Lemma update_info_keyed (E : Env) (s s1 : System) :
  _update_capacity_blocks_info_from_ec2 E s = (Return tt, s1) ->
  keyed (_capacity_blocks (self s1)).
Proof.
  intros H. unfold _update_capacity_blocks_info_from_ec2 in H.
  erewrite bind_Return in H by reflexivity.
  apply bind_inv_Return in H. destruct H as (cbs & s0 & Hp & H).
  unfold of_outcome in Hp. injection Hp as Hp <-.
  destruct (from_config_projected _ _ Hp) as [Hproj _].
  apply keyed_projected in Hproj.
  erewrite bind_Return in H by reflexivity.
  apply bind_inv_Return in H. destruct H as ([] & s2 & H & Htime).
  unfold set_capacity_blocks_update_time, modify in Htime.
  injection Htime as <-. simpl.
  destruct cbs as [|kv cbs].
  - injection H as <-. exact Hproj.
  - erewrite bind_Return in H by reflexivity.
    apply bind_inv_Return in H. destruct H as (infos & s3 & Hd & H).
    unfold of_outcome in Hd. injection Hd as _ <-.
    apply store_ec2_info_keyed in H; [exact H | exact Hproj].
Qed.

Lemma keyed_bound (d : dict CapacityBlock.t) :
  keyed d -> forall nodes, keyed (bound nodes d).
Proof.
  intros [Hnd Hd] nodes. split; [rewrite keys_bound; exact Hnd|].
  clear Hnd. revert nodes.
  induction Hd as [|[k cb] d H0 Hd IH]; intros nodes; simpl; constructor.
  - simpl. rewrite id_add_nodenames. exact H0.
  - apply IH.
Qed.

Lemma keyed_ids (d : dict CapacityBlock.t) :
  keyed d -> map CapacityBlock.capacity_block_id (values d) = keys d.
Proof.
  intros [_ Hd]. unfold values, keys. rewrite map_map.
  induction Hd as [|[k cb] d H0 Hd IH]; simpl; [reflexivity|].
  simpl in H0. rewrite H0, IH. reflexivity.
Qed.

Lemma update_slurm_reservations_has_info (E : Env) (cbs : list CapacityBlock.t) :
  forall (acc r : list string) (w w' : World),
    update_slurm_reservations E cbs acc w = (Return r, w') ->
    Forall has_ec2_info cbs.
Proof.
  induction cbs as [|cb cbs IH]; simpl; intros acc r w w' H.
  - constructor.
  - apply bind_inv_Return in H. destruct H as (r1 & w1 & H1 & H).
    constructor; [|eapply IH; exact H].
    unfold has_ec2_info. intros Hn.
    rewrite (update_slurm_reservation_no_info E cb w Hn) in H1. discriminate.
Qed.

Lemma get_filter_key (p : string -> bool) (d : dict string) (n : string) :
  get (filter (fun kv => p (fst kv)) d) n = if p n then get d n else None.
Proof.
  induction d as [|[k v] d IH]; simpl.
  - destruct (p n); reflexivity.
  - destruct (p k) eqn:Hk; simpl.
    + destruct (String.eqb n k) eqn:Hn; [|exact IH].
      apply String.eqb_eq in Hn. subst k. rewrite Hk. reflexivity.
    + rewrite IH. destruct (String.eqb n k) eqn:Hn; [|reflexivity].
      apply String.eqb_eq in Hn. subst k. rewrite Hk. reflexivity.
Qed.

Lemma refresh_inv_full (E : Env) (nodes : list SlurmNode.t) (s s' : System)
    (l : list string) :
  is_time_to_update E (_capacity_blocks_update_time (self s)) = true ->
  get_reserved_nodenames E nodes s = (Return l, s') ->
  exists (s1 : System) (w3 : World),
    _update_capacity_blocks_info_from_ec2 E s = (Return tt, s1)
    /\ update_slurm_reservations E
         (values (bound nodes (_capacity_blocks (self s1)))) [] (world s1)
       = (Return l, w3)
    /\ _capacity_blocks (self s') = bound nodes (_capacity_blocks (self s1))
    /\ _reserved_nodenames (self s') = l
    /\ reservations (world s')
       = filter (fun kv =>
                   negb (is_leftover
                           (keys (bound nodes (_capacity_blocks (self s1))))
                           (fst kv)))
                (reservations w3).
Proof.
  intros Hdue H. unfold get_reserved_nodenames in H.
  erewrite bind_Return in H by reflexivity. rewrite Hdue in H.
  apply bind_inv_Return in H. destruct H as ([] & s4 & H & Hl).
  apply bind_inv_Return in H. destruct H as ([] & s1 & H1 & H).
  exists s1. erewrite bind_Return in H by apply associate_run.
  rewrite associate_nodes_bound in H.
  erewrite bind_Return in H by reflexivity.
  apply bind_inv_Return in H. destruct H as (r & s2 & Hloop & H).
  unfold in_world in Hloop. simpl in Hloop.
  destruct (update_slurm_reservations E _ [] (world s1)) as [o w3] eqn:Hrun.
  injection Hloop as -> <-.
  erewrite bind_Return in H by reflexivity.
  rewrite cleanup_leftover_run in H. injection H as <-.
  unfold gets in Hl. simpl in Hl. injection Hl as <- <-.
  exists w3. split; [exact H1|]. split; [reflexivity|].
  simpl. repeat split; reflexivity.
Qed.

(** X18. After a refresh that returns, the scheduler's reservations with the
    prefix are exactly those of the capacity blocks that are not active: the
    reservation of such a block holds its comma-separated node names, an
    active block has no reservation, and no other name with the prefix has a
    reservation. The list returned is the list of the node names of the
    blocks that are not active, and it is the list the manager caches. *)
Theorem after_refresh_scheduler_matches_blocks :
  forall (E : Env) (nodes : list SlurmNode.t) (s s' : System) (l : list string),
    is_time_to_update E (_capacity_blocks_update_time (self s)) = true ->
    get_reserved_nodenames E nodes s = (Return l, s') ->
    let blocks := _capacity_blocks (self s') in
    (forall k cb, In (k, cb) blocks ->
       get (reservations (world s')) (CapacityBlock.slurm_reservation_name cb)
       = if is_withheld cb then Some (join "," (CapacityBlock.nodenames cb))
         else None)
    /\ (forall name,
           CapacityBlock.is_capacity_block_slurm_reservation name = true ->
           (forall k cb, In (k, cb) blocks ->
              CapacityBlock.slurm_reservation_name cb <> name) ->
           get (reservations (world s')) name = None)
    /\ l = flat_map withheld_nodes (values blocks)
    /\ _reserved_nodenames (self s') = l.
Proof.
  intros E nodes s s' l Hdue H blocks.
  destruct (refresh_inv_full E nodes s s' l Hdue H)
    as (s1 & w3 & H1 & Hloop & Hblocks & Hreserved & Hres).
  fold blocks in Hblocks. rewrite <- Hblocks in Hloop, Hres.
  assert (Hkeyed : keyed blocks).
  { rewrite Hblocks. apply keyed_bound. exact (update_info_keyed E s s1 H1). }
  pose proof (update_slurm_reservations_has_info E _ _ _ _ _ Hloop) as Hinfo.
  rewrite (update_slurm_reservations_spec E _ Hinfo) in Hloop.
  injection Hloop as Hl Hw3.
  assert (Hnd : NoDup (map CapacityBlock.capacity_block_id (values blocks))).
  { rewrite keyed_ids by exact Hkeyed. apply Hkeyed. }
  pose proof (loop_settles (values blocks) Hnd (reservations (world s1)))
    as Hsettled.
  rewrite <- Hw3 in Hres. simpl in Hres.
  rewrite Hres.
  split; [|split; [|split]].
  - intros k cb Hin.
    rewrite (get_filter_key (fun n => negb (is_leftover (keys blocks) n))).
    assert (Hown : is_leftover (keys blocks)
                     (CapacityBlock.slurm_reservation_name cb) = false).
    { unfold is_leftover, CapacityBlock.slurm_reservation_name_to_id,
        CapacityBlock.slurm_reservation_name.
      rewrite slice_from_app.
      assert (Hk : In (CapacityBlock.capacity_block_id cb) (keys blocks)).
      { rewrite <- keyed_ids by exact Hkeyed. apply in_map. unfold values.
        apply in_map_iff. exists (k, cb). auto. }
      apply existsb_eqb_In in Hk. rewrite Hk. apply andb_false_r. }
    rewrite Hown. simpl.
    rewrite Forall_forall in Hsettled. apply Hsettled.
    unfold values. apply in_map_iff. exists (k, cb). auto.
  - intros name Hm Hnone.
    rewrite (get_filter_key (fun n => negb (is_leftover (keys blocks) n))).
    assert (Hleft : is_leftover (keys blocks) name = true).
    { apply is_leftover_iff. split; [exact Hm|]. intros Hin.
      rewrite <- keyed_ids in Hin by exact Hkeyed.
      apply in_map_iff in Hin. destruct Hin as (cb & Hid & Hcb).
      unfold values in Hcb. apply in_map_iff in Hcb.
      destruct Hcb as ([k cb'] & Heq & Hin). simpl in Heq. subst cb'.
      apply (Hnone k cb Hin).
      unfold CapacityBlock.slurm_reservation_name. rewrite Hid.
      apply startswith_slice. exact Hm. }
    rewrite Hleft. reflexivity.
  - symmetry. exact Hl.
  - exact Hreserved.
Qed.

Lemma after_refresh_scheduler_matches_blocks_witness :
  let block id := [("CapacityType", "capacity-block"); ("CapacityReservationId", id)] in
  let fc : fleet_config := [("q1", [("r1", block "cr-1"); ("r2", block "cr-2")])] in
  let nodes := [SlurmNode.Build "q1-st-r1-1" "q1" "r1";
                SlurmNode.Build "q1-st-r2-1" "q1" "r2"] in
  let E := MkEnv 1200
             (fun _ => Return [CapacityBlockReservationInfo.Build "cr-1" "active";
                               CapacityBlockReservationInfo.Build "cr-2" "expired"]) in
  let s := MkSystem (Build fc [] (Some 0) [])
                    (MkWorld [("pcluster-cr-1", "q1-st-r1-1");
                              ("pcluster-cr-7", "q7-st-r7-1")] []) in
  let s' := snd (get_reserved_nodenames E nodes s) in
  get (reservations (world s')) "pcluster-cr-7" = None
  /\ _reserved_nodenames (self s') = ["q1-st-r2-1"].
Proof.
  intros block fc nodes E s s'.
  destruct (after_refresh_scheduler_matches_blocks E nodes s s' ["q1-st-r2-1"]
              eq_refl eq_refl) as (_ & Hnone & _ & Hres).
  split; [|exact Hres].
  apply Hnone; [reflexivity|].
  intros k cb [Heq | [Heq | []]]; injection Heq as <- <-; discriminate.
Defined.

(** ** A refresh that fails in the loop *)

Lemma update_slurm_reservations_raises (E : Env) (cbs : list CapacityBlock.t) :
  Exists lacks_ec2_info cbs ->
  forall (acc : list string) (w : World),
    exists w' : World,
      update_slurm_reservations E cbs acc w = (Raise (AttributeError "state"), w').
Proof.
  induction cbs as [|cb cbs IH]; intros Hex acc w.
  - inversion Hex.
  - simpl.
    destruct (CapacityBlock._capacity_block_reservation_info cb) as [info|] eqn:Hi.
    + assert (Hinfo : has_ec2_info cb) by (unfold has_ec2_info; congruence).
      assert (Htail : Exists lacks_ec2_info cbs).
      { inversion Hex as [? ? Hhd | ? ? Htl]; subst; [|exact Htl].
        unfold lacks_ec2_info in Hhd. congruence. }
      erewrite bind_Return by (apply update_slurm_reservation_spec; exact Hinfo).
      apply IH. exact Htail.
    + eexists. apply bind_Raise. apply update_slurm_reservation_no_info. exact Hi.
Qed.

Lemma lacks_info_bound (d : dict CapacityBlock.t) :
  Exists lacks_ec2_info (values d) ->
  forall nodes, Exists lacks_ec2_info (values (bound nodes d)).
Proof.
  induction d as [|[k cb] d IH]; simpl; intros Hex nodes.
  - inversion Hex.
  - inversion Hex as [? ? Hhd | ? ? Htl]; subst.
    + left. unfold lacks_ec2_info. rewrite info_add_nodenames. exact Hhd.
    + right. apply IH. exact Htl.
Qed.

Lemma lacks_info_informed (fc : fleet_config)
    (infos : list CapacityBlockReservationInfo.t) (d : dict CapacityBlock.t)
    (k : string) :
  projected fc d -> In k (keys d) -> latest_info infos k = None ->
  Exists lacks_ec2_info (values (informed infos d)).
Proof.
  intros [_ Hd] Hk Hnone. apply Exists_exists.
  unfold keys in Hk. apply in_map_iff in Hk. destruct Hk as ([k0 cb] & Heq & Hin).
  simpl in Heq. subst k0.
  exists cb. split.
  - unfold values, informed. rewrite map_map. apply in_map_iff.
    exists (k, cb). simpl. rewrite Hnone. auto.
  - destruct (Hd k cb Hin) as (q & cr & -> & _). reflexivity.
Qed.

Lemma get_reserved_nodenames_not_due (E : Env) (nodes : list SlurmNode.t)
    (s : System) :
  is_time_to_update E (_capacity_blocks_update_time (self s)) = false ->
  get_reserved_nodenames E nodes s = (Return (_reserved_nodenames (self s)), s).
Proof.
  intros Hnot. unfold get_reserved_nodenames.
  erewrite bind_Return by reflexivity. rewrite Hnot.
  erewrite bind_Return by reflexivity. reflexivity.
Qed.

(** X19. When a refresh is due and the answer of EC2 has no info for one of
    the configured capacity blocks, [get_reserved_nodenames] raises
    [AttributeError] from the reconciliation loop. The cached list of
    reserved nodes is what it was, but the time of the refresh has already
    been set to now and the capacity blocks have been replaced and given
    their nodes: the next call within the period returns the old list
    without asking EC2 again. *)
Theorem refresh_failing_in_loop_keeps_cached_list :
  forall (E : Env) (nodes : list SlurmNode.t) (s : System)
         (cbs : dict CapacityBlock.t)
         (infos : list CapacityBlockReservationInfo.t) (k : string),
    is_time_to_update E (_capacity_blocks_update_time (self s)) = true ->
    _capacity_blocks_from_config (_fleet_config (self s)) = Return cbs ->
    describe_capacity_reservations E (keys cbs) = Return infos ->
    Forall (known cbs) infos ->
    In k (keys cbs) -> latest_info infos k = None ->
    exists s' : System,
      get_reserved_nodenames E nodes s = (Raise (AttributeError "state"), s')
      /\ _reserved_nodenames (self s') = _reserved_nodenames (self s)
      /\ _capacity_blocks_update_time (self s') = Some (now E)
      /\ _capacity_blocks (self s') = bound nodes (informed infos cbs)
      /\ forall (E' : Env) (nodes' : list SlurmNode.t),
          is_time_to_update E' (Some (now E)) = false ->
          get_reserved_nodenames E' nodes' s'
          = (Return (_reserved_nodenames (self s)), s').
Proof.
  intros E nodes s cbs infos k Hdue Hp Hd Hk Hin Hnone.
  assert (Hne : cbs <> []) by (intros ->; exact Hin).
  destruct (from_config_projected _ _ Hp) as [Hproj _].
  pose proof (lacks_info_bound _ (lacks_info_informed _ infos cbs k Hproj Hin Hnone)
                nodes) as Hex.
  destruct (update_slurm_reservations_raises E _ Hex []
              (MkWorld (reservations (world s))
                       (calls (world s)
                        ++ [DescribeCapacityReservations (keys cbs)])))
    as [w' Hloop].
  set (s' := MkSystem (Build (_fleet_config (self s))
                             (bound nodes (informed infos cbs))
                             (Some (now E)) (_reserved_nodenames (self s)))
                      w').
  assert (Hrun : get_reserved_nodenames E nodes s
                 = (Raise (AttributeError "state"), s')).
  { unfold get_reserved_nodenames.
    erewrite bind_Return by reflexivity. rewrite Hdue.
    apply bind_Raise.
    erewrite bind_Return by (apply update_info_run; eassumption).
    erewrite bind_Return by apply associate_run.
    simpl. rewrite associate_nodes_bound.
    rewrite (fold_with_info_informed _ _ (proj1 Hproj)).
    erewrite bind_Return by reflexivity.
    apply bind_Raise. unfold in_world. simpl. rewrite Hloop. reflexivity. }
  exists s'. split; [exact Hrun|].
  split; [reflexivity|]. split; [reflexivity|]. split; [reflexivity|].
  intros E' nodes' Hnot.
  exact (get_reserved_nodenames_not_due E' nodes' s' Hnot).
Qed.

Lemma refresh_failing_in_loop_keeps_cached_list_witness :
  let block id := [("CapacityType", "capacity-block"); ("CapacityReservationId", id)] in
  let fc : fleet_config := [("q1", [("r1", block "cr-1"); ("r2", block "cr-2")])] in
  let nodes := [SlurmNode.Build "q1-st-r1-1" "q1" "r1"] in
  let E := MkEnv 1200
             (fun _ => Return [CapacityBlockReservationInfo.Build "cr-2" "pending"]) in
  let s := MkSystem (Build fc [] (Some 0) ["old-node"]) (MkWorld [] []) in
  exists s' : System,
    get_reserved_nodenames E nodes s = (Raise (AttributeError "state"), s')
    /\ _capacity_blocks_update_time (self s') = Some 1200
    /\ get_reserved_nodenames (MkEnv 1500 (fun _ => Return [])) nodes s'
       = (Return ["old-node"], s').
Proof.
  intros block fc nodes E s.
  set (cbs := [("cr-1", CapacityBlock.__init__ "cr-1" "q1" "r1");
               ("cr-2", CapacityBlock.__init__ "cr-2" "q1" "r2")]).
  set (infos := [CapacityBlockReservationInfo.Build "cr-2" "pending"]).
  assert (Hk : Forall (known cbs) infos)
    by (repeat constructor; unfold known; simpl; auto).
  assert (Hin : In "cr-1"%string (keys cbs)) by (left; reflexivity).
  destruct (refresh_failing_in_loop_keeps_cached_list E nodes s cbs infos "cr-1"
              eq_refl eq_refl eq_refl Hk Hin eq_refl)
    as (s' & Hrun & _ & Htime & _ & Hnext).
  exists s'. split; [exact Hrun|]. split; [exact Htime|].
  apply Hnext. reflexivity.
Defined.
